(** * The sqlite span reader of teletrace: model and properties

    A shallow embedding of [plugin/spanreader/sqlite/span_reader.go].

    The reader is written against three collaborators that live outside the
    file: Go's [database/sql] (prepare, query, row cursor), the zap logger,
    and the plugin's own query builders and row types.  They are interfaces
    here ([SqlDriver] and [SqlitePlugin]); the reader's methods are
    definitions over them, in a state monad that threads the logger's output
    and the state of the store. *)

From Stdlib Require Import ZArith DecimalString.
From Stdlib Require DecimalPos DecimalZ.
From stdpp Require Import gmap strings list fin_maps.

Local Open Scope Z_scope.
Local Open Scope string_scope.
Local Open Scope list_scope.

(** ** Go values *)

(** A Go pointer [*T]: [None] is [nil]. *)
Abbreviation ptr := option.

(** Go's [error] values carry a message ([Error()]); [nil] is [None] of
    [option error]. *)
Record error := errorString { Error : string }.

(** [fmt.Errorf(prefix + "%v", err)]. *)
Definition Errorf_v (prefix : string) (err : error) : error :=
  errorString (prefix +:+ Error err).

(** [fmt.Sprintf("%d", z)]: the decimal digits of an integer, with a
    leading minus sign for a negative one. *)
Definition Sprintf_d (z : Z) : string := NilZero.string_of_int (Z.to_int z).

(** [fmt.Sprintf("%s.%s", a, b)]. *)
Definition Sprintf_s_dot_s (a b : string) : string := a +:+ "." +:+ b.

(** A Go slice, which is either [nil] or allocated (and then possibly
    empty).  Both have length zero when they hold nothing. *)
Inductive slice (A : Type) : Type :=
| nil_slice
| slice_of (elems : list A).
Arguments nil_slice {A}.
Arguments slice_of {A} elems.

Definition elems {A} (s : slice A) : list A :=
  match s with nil_slice => [] | slice_of l => l end.

(** [make([]T, 0)] *)
Definition make0 {A} : slice A := slice_of [].

(** [append(s, x)]: appending to a nil slice allocates. *)
Definition append {A} (s : slice A) (x : A) : slice A :=
  slice_of (elems s ++ [x]).

(** [len(s)] *)
Definition len {A} (s : slice A) : nat := length (elems s).

(** [s == nil] *)
Definition is_nil {A} (s : slice A) : bool :=
  match s with nil_slice => true | slice_of _ => false end.

(** ** The zap logger *)

Inductive Level := DebugLevel | InfoLevel | WarnLevel | ErrorLevel.

(** One record written by [logger.Error(msg, zap.Error(err))] and its
    siblings. *)
Record Entry := mkEntry {
  entry_level : Level;
  entry_msg : string;
  entry_err : error
}.

(** ** database/sql *)

(** What the reader uses of [database/sql].  [DB] is the state of the store
    behind [sr.client.db]; every call may change it, so two runs of the same
    query need not agree.  [rows_all] is the sequence of rows for which
    [rows.Next()] reports true; [Value] is what [Scan] stores in a
    destination of type [any] for a column that is not NULL. *)
Class SqlDriver := {
  context : Type;
  DB : Type;
  Stmt : Type;
  Rows : Type;
  RawRow : Type;
  Value : Type;
  PrepareContext : context → string → DB → (error + Stmt) * DB;
  QueryContext : Stmt → context → DB → (error + Rows) * DB;
  stmt_Close : Stmt → DB → DB;
  rows_Close : Rows → DB → DB;
  rows_all : Rows → list RawRow
}.

(** ** Models of the response types *)

(** Modelled from the spec: the span types of [model/internalspan/v1], which
    are declared outside the reader.  Of a span the reader itself reads the
    start time and the duration only; the other fields identify it. *)
Record Span := mkSpan {
  TraceId : string;
  SpanId : string;
  ParentSpanId : string;
  Name : string;
  StartTimeUnixNano : Z;
  EndTimeUnixNano : Z
}.

Record ExternalFields := mkExternalFields {
  DurationNano : Z
}.

Record InternalSpan := mkInternalSpan {
  Span_ : Span;
  ExternalFields_ : ExternalFields
}.

(** [spansquery.Metadata]; a [ContinuationToken] is a string. *)
Record Metadata := mkMetadata {
  NextToken : string
}.

(** [spansquery.SearchResponse] *)
Record SearchResponse := mkSearchResponse {
  Spans : slice (ptr InternalSpan);
  Metadata_ : ptr Metadata
}.

(** Modelled from the spec: the filter and request types of
    [pkg/model/spansquery/v1], declared outside the reader, which hands a
    request to the query builder without reading it. *)
Inductive Operator :=
| OpEquals | OpIn | OpNotIn | OpContains | OpNotContains
| OpExists | OpNotExists | OpGt | OpGte | OpLt | OpLte.

Inductive FilterValue :=
| ScalarInt (z : Z)
| ScalarString (s : string)
| ValueList (vs : list string).

Record SearchFilter := mkSearchFilter {
  filter_key : string;
  filter_operator : Operator;
  filter_value : FilterValue
}.

Record SearchRequest := mkSearchRequest {
  Filters : list SearchFilter;
  SortField : option string;
  Cursor : option string;
  PageSize : nat
}.

(** [tagsquery.TagInfo] *)
Record TagInfo := mkTagInfo {
  tag_Name : string;
  tag_Type : string
}.

(** ** The rest of the plugin *)

(** What the reader uses of the plugin's other files: the query builders
    with the accessors of what they return, the row types with theirs, what
    [rows.Scan] does with the destinations each method passes, and the
    static tag registry.  A builder's result is used without a nil check, so
    on success it is a value; [toInternalSpan] returns a pointer that
    [Search] does check. *)
Class SqlitePlugin `{SqlDriver} := {
  TagValuesRequest : Type;
  searchQueryResponse : Type;
  tagValueQueryResponse : Type;
  sqliteInternalSpan : Type;
  sqliteTag : Type;
  buildSearchQuery : SearchRequest → error + searchQueryResponse;
  search_getQuery : searchQueryResponse → string;
  search_getSort : searchQueryResponse → string;
  buildDynamicTagsQuery : string;
  buildTagValuesQuery : TagValuesRequest → string → error + tagValueQueryResponse;
  tagValue_getQuery : tagValueQueryResponse → string;
  scan_span : RawRow → error + sqliteInternalSpan;
  toInternalSpan : sqliteInternalSpan → ptr InternalSpan * option error;
  scan_tag : RawRow → error + sqliteTag;
  getTableKey : sqliteTag → string;
  getTagName : sqliteTag → string;
  getTagType : sqliteTag → string;
  scan_value : RawRow → error + (option Value * Z);
  staticTagTypeMap : gmap string string;
  GetAvailableTagsRequest : Type;
  GetSystemIdRequest : Type;
  GetSystemIdResponse : Type;
  SetSystemIdRequest : Type;
  SetSystemIdResponse : Type;
  TagStatisticsRequest : Type;
  TagStatisticsResponse : Type
}.

(** [tagsquery.TagValueInfo]: [tv_Value] has type [any], [None] is [nil]. *)
Record TagValueInfo `{SqlDriver} := mkTagValueInfo {
  tv_Value : option Value;
  tv_Count : Z
}.
Arguments mkTagValueInfo {_} tv_Value tv_Count.

(** [tagsquery.TagValuesResponse] *)
Record TagValuesResponse `{SqlDriver} := mkTagValuesResponse {
  Values : slice TagValueInfo
}.
Arguments mkTagValuesResponse {_} Values.

(** [tagsquery.GetAvailableTagsResponse] *)
Record GetAvailableTagsResponse := mkGetAvailableTagsResponse {
  Tags : slice TagInfo
}.

(** ** The monad of the reader's methods *)

Section Reader.
Context `{plugin : SqlitePlugin}.

(** What a call can change: the logger's output (oldest first) and the
    store. *)
Record World := mkWorld {
  logs : list Entry;
  db : DB
}.

Definition M (A : Type) : Type := World → A * World.

#[export] Instance M_ret : MRet M := λ A a w, (a, w).
#[export] Instance M_bind : MBind M := λ A B f m w,
  let '(a, w') := m w in f a w'.

(** [sr.logger.Error(msg, zap.Error(err))] *)
Definition logger_Error (msg : string) (err : error) : M unit :=
  λ w, (tt, mkWorld (logs w ++ [mkEntry ErrorLevel msg err]) (db w)).

(** A call into [database/sql]. *)
Definition sql {A} (f : DB → A * DB) : M A :=
  λ w, let '(a, d) := f (db w) in (a, mkWorld (logs w) d).

(** [defer close(); body]: [close] runs when [body] is left, whatever it
    returns. *)
Definition defer {A} (close : DB → DB) (body : M A) : M A :=
  a ← body; _ ← sql (λ d, (tt, close d)); mret a.

(** ** Initialize *)

Definition Initialize : M (option error) := mret None.

(** ** Search *)

(** The loop [for rows.Next() { ... }] of [Search], on the rows still to
    come and the spans gathered so far. *)
Fixpoint Search_rows (rows : list RawRow) (spans : slice (ptr InternalSpan))
  : M (slice (ptr InternalSpan)) :=
  match rows with
  | [] => mret spans
  | row :: rest =>
      match scan_span row with
      | inl err =>
          _ ← logger_Error "failed to get span value" err;
          Search_rows rest spans
      | inr sqliteSpan =>
          match toInternalSpan sqliteSpan with
          | (_, Some err) =>
              _ ← logger_Error "failed to convert span" err;
              Search_rows rest spans
          | (internalSpan, None) =>
              Search_rows rest (append spans internalSpan)
          end
      end
  end.

(** The tail of [Search]: the next-page block, from what [getSort] answers
    and the spans gathered.  The index is in range under the guard, so the
    lookup cannot miss. *)
Definition Search_metadata (sort : string) (spans : slice (ptr InternalSpan))
  : ptr Metadata :=
  if bool_decide (0 < len spans)%nat then
    let lastInternalSpanIndex := (len spans - 1)%nat in
    match elems spans !! lastInternalSpanIndex with
    | Some (Some lastInternalSpan) =>
        Some (mkMetadata
          (if bool_decide (sort = "duration")
           then Sprintf_d (DurationNano (ExternalFields_ lastInternalSpan))
           else Sprintf_d (StartTimeUnixNano (Span_ lastInternalSpan))))
    | _ => None
    end
  else None.

Definition Search (ctx : context) (r : SearchRequest)
  : M (ptr SearchResponse * option error) :=
  let result_Spans : slice (ptr InternalSpan) := make0 in
  match buildSearchQuery r with
  | inl err => mret (None, Some err)
  | inr searchQueryResponse =>
      prepared ← sql (PrepareContext ctx (search_getQuery searchQueryResponse));
      match prepared with
      | inl err => mret (None, Some (Errorf_v "failed to prepare query: " err))
      | inr stmt =>
          defer (stmt_Close stmt) (
            queried ← sql (QueryContext stmt ctx);
            match queried with
            | inl err => mret (None, Some (Errorf_v "failed to query spans: " err))
            | inr rows =>
                defer (rows_Close rows) (
                  result_Spans ← Search_rows (rows_all rows) result_Spans;
                  mret (Some (mkSearchResponse result_Spans
                          (Search_metadata (search_getSort searchQueryResponse)
                             result_Spans)),
                        None))
            end)
      end
  end.

(** ** GetAvailableTags *)

(** The loop over [staticTagTypeMap].  Go ranges over a map in an order of
    its choosing; here it is the order of [map_to_list], and nothing below
    depends on which one it is.  [tag] is the one variable both loops of
    [GetAvailableTags] write to before they append it. *)
Definition GetAvailableTags_static (tag : TagInfo) (tags : slice TagInfo)
  : TagInfo * slice TagInfo :=
  foldl (λ '(tag, tags) '(tagName, fieldType),
           let tag := mkTagInfo tagName (tag_Type tag) in
           let tag := mkTagInfo (tag_Name tag) fieldType in
           (tag, append tags tag))
        (tag, tags) (map_to_list staticTagTypeMap).

(** The loop [for rows.Next() { ... }] of [GetAvailableTags]. *)
Fixpoint GetAvailableTags_rows (rows : list RawRow) (tag : TagInfo)
    (tags : slice TagInfo) : M (slice TagInfo) :=
  match rows with
  | [] => mret tags
  | row :: rest =>
      match scan_tag row with
      | inl err =>
          _ ← logger_Error "failed to get tag value" err;
          GetAvailableTags_rows rest tag tags
      | inr sqliteTag =>
          if bool_decide (getTableKey sqliteTag = "")
             || bool_decide (getTagName sqliteTag = "")
          then GetAvailableTags_rows rest tag tags
          else
            let tag := mkTagInfo
              (Sprintf_s_dot_s (getTableKey sqliteTag) (getTagName sqliteTag))
              (tag_Type tag) in
            let tag := mkTagInfo (tag_Name tag) (getTagType sqliteTag) in
            GetAvailableTags_rows rest tag (append tags tag)
      end
  end.

Definition GetAvailableTags (ctx : context) (r : GetAvailableTagsRequest)
  : M (ptr GetAvailableTagsResponse * option error) :=
  let tags_Tags : slice TagInfo := nil_slice in
  let tag := mkTagInfo "" "" in
  let '(tag, tags_Tags) := GetAvailableTags_static tag tags_Tags in
  let query := buildDynamicTagsQuery in
  prepared ← sql (PrepareContext ctx query);
  match prepared with
  | inl err => mret (None, Some (Errorf_v "failed to prepare query: " err))
  | inr stmt =>
      defer (stmt_Close stmt) (
        queried ← sql (QueryContext stmt ctx);
        match queried with
        | inl err => mret (None, Some (Errorf_v "failed to query tags: " err))
        | inr rows =>
            defer (rows_Close rows) (
              tags_Tags ← GetAvailableTags_rows (rows_all rows) tag tags_Tags;
              mret (Some (mkGetAvailableTagsResponse tags_Tags), None))
        end)
  end.

(** ** GetTagValues and GetTagsValues *)

(** The loop [for rows.Next() { ... }] of [GetTagValues]; [name] and
    [count] are fresh in every round. *)
Fixpoint GetTagValues_rows (rows : list RawRow)
    (currentTagValues : slice TagValueInfo) : M (slice TagValueInfo) :=
  match rows with
  | [] => mret currentTagValues
  | row :: rest =>
      match scan_value row with
      | inl err =>
          _ ← logger_Error "failed to get tag value" err;
          GetTagValues_rows rest currentTagValues
      | inr (name, count) =>
          match name with
          | None => GetTagValues_rows rest currentTagValues
          | Some _ =>
              GetTagValues_rows rest
                (append currentTagValues (mkTagValueInfo name count))
          end
      end
  end.

Definition GetTagValues (ctx : context) (r : TagValuesRequest) (tag : string)
  : M (ptr TagValuesResponse * option error) :=
  let currentTagValues : slice TagValueInfo := nil_slice in
  match buildTagValuesQuery r tag with
  | inl err =>
      _ ← logger_Error ("failed to build tag values query for: " +:+ tag) err;
      mret (None, Some err)
  | inr tagValueQueryResponse =>
      prepared ← sql (PrepareContext ctx (tagValue_getQuery tagValueQueryResponse));
      match prepared with
      | inl err =>
          _ ← logger_Error
                ("failed to prepare query: "
                   +:+ tagValue_getQuery tagValueQueryResponse) err;
          mret (None, Some err)
      | inr stmt =>
          defer (stmt_Close stmt) (
            queried ← sql (QueryContext stmt ctx);
            match queried with
            | inl err =>
                _ ← logger_Error ("failed to query tags values for: " +:+ tag) err;
                mret (None, Some err)
            | inr rows =>
                defer (rows_Close rows) (
                  currentTagValues ←
                    GetTagValues_rows (rows_all rows) currentTagValues;
                  mret (Some (mkTagValuesResponse currentTagValues), None))
            end)
      end
  end.

(** The loop [for _, tag := range tags { ... }] of [GetTagsValues]. *)
Fixpoint GetTagsValues_tags (ctx : context) (r : TagValuesRequest)
    (tags : list string) (result : gmap string (ptr TagValuesResponse))
  : M (gmap string (ptr TagValuesResponse)) :=
  match tags with
  | [] => mret result
  | tag :: rest =>
      '(tagValueResponse, err) ← GetTagValues ctx r tag;
      match err with
      | Some err =>
          _ ← logger_Error "failed to get tag value" err;
          GetTagsValues_tags ctx r rest result
      | None =>
          GetTagsValues_tags ctx r rest (<[tag := tagValueResponse]> result)
      end
  end.

Definition GetTagsValues (ctx : context) (r : TagValuesRequest)
    (tags : list string)
  : M (gmap string (ptr TagValuesResponse) * option error) :=
  result ← GetTagsValues_tags ctx r tags ∅;
  mret (result, None).

(** ** The methods the plugin leaves out *)

Definition GetSystemId (ctx : context) (r : GetSystemIdRequest)
  : M (ptr GetSystemIdResponse * option error) :=
  mret (None, Some (errorString "Not implemented method")).

Definition SetSystemId (ctx : context) (r : SetSystemIdRequest)
  : M (ptr SetSystemIdResponse * option error) :=
  mret (None, Some (errorString "Not implemented method")).

Definition GetTagsStatistics (ctx : context) (r : TagStatisticsRequest)
    (tag : string) : M (ptr TagStatisticsResponse * option error) :=
  mret (None,
        Some (errorString
                "GetTagsStatistics is not yet implemented for sqlite plugin")).

End Reader.

(** ** Vocabulary of the properties *)

Section Vocabulary.
Context `{plugin : SqlitePlugin}.

(** The value of the field a page is sorted by, for what [getSort]
    answers. *)
Definition sort_field_value (sort : string) (s : InternalSpan) : Z :=
  if bool_decide (sort = "duration")
  then DurationNano (ExternalFields_ s)
  else StartTimeUnixNano (Span_ s).

(** The pointer a row decodes to, when both [Scan] and [toInternalSpan]
    return no error. *)
Definition decoded_span (row : RawRow) : option (ptr InternalSpan) :=
  match scan_span row with
  | inl _ => None
  | inr q => match toInternalSpan q with
             | (p, None) => Some p
             | (_, Some _) => None
             end
  end.

(** The error that makes a row fail to decode, from [Scan] or from
    [toInternalSpan]. *)
Definition decode_failure (row : RawRow) : option error :=
  match scan_span row with
  | inl err => Some err
  | inr q => snd (toInternalSpan q)
  end.

(** The page [Search] answers with, for what [getSort] says and the rows the
    cursor yields. *)
Definition Search_page (sort : string) (rows : list RawRow) : SearchResponse :=
  let spans := slice_of (omap decoded_span rows) in
  mkSearchResponse spans (Search_metadata sort spans).

(** The tags a cursor yields, of the rows that [Scan] accepts. *)
Definition scanned_tags (rows : list RawRow) : list sqliteTag :=
  omap (λ row, match scan_tag row with inl _ => None | inr t => Some t end) rows.

(** A discovered pair under its qualified name, with the type the
    discovery query reports. *)
Definition qualified (t : sqliteTag) : TagInfo :=
  mkTagInfo (getTableKey t +:+ "." +:+ getTagName t) (getTagType t).

(** The entries of the static registry under their bare names. *)
Definition static_tags : list TagInfo :=
  (λ kv, mkTagInfo kv.1 kv.2) <$> map_to_list staticTagTypeMap.

(** The value and count of the rows that [Scan] accepts and whose value is
    not NULL. *)
Definition scanned_values (rows : list RawRow) : list (Value * Z) :=
  omap (λ row, match scan_value row with
               | inr (Some v, c) => Some (v, c)
               | _ => None
               end) rows.

(** The lookups a batch call makes, one per entry of [tags] and in their
    order, each in the world the batch has reached, paired with what the
    lookup returned. *)
Fixpoint lookups (ctx : context) (r : TagValuesRequest) (tags : list string)
    (w : World) : list (string * (ptr TagValuesResponse * option error)) :=
  match tags with
  | [] => []
  | tag :: rest =>
      let '(res, w1) := GetTagValues ctx r tag w in
      (tag, res) :: lookups ctx r rest
                      (match res.2 with
                       | Some err => (logger_Error "failed to get tag value" err w1).2
                       | None => w1
                       end)
  end.

(** The lookups among them that returned no error, with what they
    returned. *)
Definition successes
    (os : list (string * (ptr TagValuesResponse * option error)))
  : list (string * ptr TagValuesResponse) :=
  omap (λ o, match o.2.2 with
             | None => Some (o.1, o.2.1)
             | Some _ => None
             end) os.

End Vocabulary.

(** ** A store in memory

    A driver and a plugin small enough to run: the store answers a query
    text with the rows filed under it, and counts the handles left open. *)

Module Scenario.

Inductive Val := VInt (z : Z) | VText (s : string).

Record Store := mkStore {
  tables : list (string * list (list (option Val)));
  open_handles : nat
}.

Definition find_table (q : string) (d : Store) : option (list (list (option Val))) :=
  snd <$> list_find (λ kv, kv.1 = q) (tables d) ≫= λ kv, Some kv.2.

#[export] Instance driver : SqlDriver := {|
  context := unit;
  DB := Store;
  Stmt := string;
  Rows := list (list (option Val));
  RawRow := list (option Val);
  Value := Val;
  PrepareContext := λ _ q d,
    if bool_decide (q = "")
    then (inl (errorString "near end of input: syntax error"), d)
    else (inr q, mkStore (tables d) (S (open_handles d)));
  QueryContext := λ stmt _ d,
    match find_table stmt d with
    | None => (inl (errorString ("no such table: " +:+ stmt)), d)
    | Some rows => (inr rows, mkStore (tables d) (S (open_handles d)))
    end;
  stmt_Close := λ _ d, mkStore (tables d) (pred (open_handles d));
  rows_Close := λ _ d, mkStore (tables d) (pred (open_handles d));
  rows_all := λ rows, rows
|}.

Record Built := mkBuilt { built_query : string; built_sort : string }.

Record RowSpan := mkRowSpan {
  row_spanId : string;
  row_start : Z;
  row_end : Z
}.

Definition text_or_empty (c : option Val) : string :=
  match c with Some (VText s) => s | _ => "" end.

#[export] Instance plugin : SqlitePlugin := {|
  TagValuesRequest := unit;
  searchQueryResponse := Built;
  tagValueQueryResponse := Built;
  sqliteInternalSpan := RowSpan;
  sqliteTag := string * string * string;
  buildSearchQuery := λ r,
    match Filters r with
    | [] => inl (errorString "no filters")
    | _ =>
        let sort := default "span.startTimeUnixNano" (SortField r) in
        inr (mkBuilt ("spans by " +:+ sort) sort)
    end;
  search_getQuery := built_query;
  search_getSort := built_sort;
  buildDynamicTagsQuery := "dynamic tags";
  buildTagValuesQuery := λ _ tag,
    if bool_decide (tag = "")
    then inl (errorString "empty tag")
    else inr (mkBuilt ("values of " +:+ tag) "");
  tagValue_getQuery := built_query;
  scan_span := λ row,
    match row with
    | [Some (VText id); Some (VInt s); Some (VInt e)] => inr (mkRowSpan id s e)
    | _ => inl (errorString "sql: Scan error")
    end;
  toInternalSpan := λ q,
    if bool_decide (row_end q < row_start q)
    then (None, Some (errorString "span ends before it starts"))
    else (Some (mkInternalSpan
                  (mkSpan "t1" (row_spanId q) "" "GET /" (row_start q) (row_end q))
                  (mkExternalFields (row_end q - row_start q))),
          None);
  scan_tag := λ row,
    match row with
    | [k; n; Some (VText t)] => inr (text_or_empty k, text_or_empty n, t)
    | _ => inl (errorString "sql: Scan error")
    end;
  getTableKey := λ t, t.1.1;
  getTagName := λ t, t.1.2;
  getTagType := λ t, t.2;
  scan_value := λ row,
    match row with
    | [v; Some (VInt c)] => inr (v, c)
    | _ => inl (errorString "sql: Scan error")
    end;
  staticTagTypeMap := {[ "http.method" := "string" ]};
  GetAvailableTagsRequest := unit;
  GetSystemIdRequest := unit;
  GetSystemIdResponse := unit;
  SetSystemIdRequest := unit;
  SetSystemIdResponse := unit;
  TagStatisticsRequest := unit;
  TagStatisticsResponse := unit
|}.

Definition span_row (id : string) (s e : Z) : list (option Val) :=
  [Some (VText id); Some (VInt s); Some (VInt e)].

Definition tag_row (k n t : string) : list (option Val) :=
  [Some (VText k); Some (VText n); Some (VText t)].

(** Two spans that start at 100 and at 50, a row that ends before it
    starts and one with a column missing; one discovered tag, one with a
    NULL source and one reported under two types; the values of
    [http.method], one of them NULL.  Nothing is filed for the values of
    [b]. *)
Definition store : Store := mkStore
  [ ("spans by span.startTimeUnixNano",
       [ span_row "s1" 100 130; [Some (VText "s2")]; span_row "s3" 70 60;
         span_row "s4" 50 90 ]);
    ("spans by duration", [ span_row "s4" 50 90; span_row "s1" 100 130 ]);
    ("dynamic tags",
       [ tag_row "resource" "service.name" "string";
         [None; Some (VText "orphan"); Some (VText "string")];
         tag_row "span.attributes" "retries" "number";
         tag_row "span.attributes" "retries" "string" ]);
    ("values of http.method",
       [ [Some (VText "GET"); Some (VInt 12)];
         [Some (VText "POST"); Some (VInt 3)];
         [None; Some (VInt 5)] ]);
    ("values of a", [ [Some (VText "x"); Some (VInt 1)] ]);
    ("values of quiet", [ [None; Some (VInt 4)]; [Some (VText "y")] ]) ]
  0.

Definition world : World := mkWorld [] store.

(** [context.Background()] *)
Definition background : @context driver := tt.

Definition values_request : @TagValuesRequest driver plugin := tt.

Definition tags_request : @GetAvailableTagsRequest driver plugin := tt.

Definition status_filter : SearchFilter :=
  mkSearchFilter "http.status_code" OpGte (ScalarInt 500).

Definition request : SearchRequest :=
  mkSearchRequest [status_filter] None None 10.

Definition request_by_duration : SearchRequest :=
  mkSearchRequest [status_filter] (Some "duration") None 10.

End Scenario.
(** ** Reading a token back *)

(** The integer a decimal string spells, as the next request's builder has
    to read a token back. *)
Definition parse_decimal (s : string) : option Z :=
  Z.of_int <$> NilZero.int_of_string s.

(** ** More of the store in memory *)

Module ScenarioMore.
Import Scenario.

(** A request the builder rejects, and a store with nothing filed. *)
Definition request_without_filters : SearchRequest :=
  mkSearchRequest [] None None 10.

Definition empty_world : World := mkWorld [] (mkStore [] 0).

(** A store whose discovery query yields one pair that is kept, one row
    with a column missing, which [Scan] rejects, and one pair with a NULL
    source. *)
Definition discovery_world : World := mkWorld []
  (mkStore
     [ ("dynamic tags",
          [ tag_row "resource" "service.name" "string";
            [Some (VText "broken")];
            [None; Some (VText "orphan"); Some (VText "string")] ]) ]
     0).

End ScenarioMore.

(** ** A store that follows a script

    A driver whose store answers the queries it is sent from a list, one
    answer a query and whatever the query: the contents change between two
    runs of the same query.  Its plugin is the one of the store in memory,
    with an empty static registry. *)

Module Scripted.

Definition driver : SqlDriver := {|
  context := unit;
  DB := list (error + list (list (option Scenario.Val)));
  Stmt := string;
  Rows := list (list (option Scenario.Val));
  RawRow := list (option Scenario.Val);
  Value := Scenario.Val;
  PrepareContext := λ _ q d, (inr q, d);
  QueryContext := λ _ _ d,
    match d with
    | [] => (inl (errorString "sql: database is closed"), [])
    | answer :: rest => (answer, rest)
    end;
  stmt_Close := λ _ d, d;
  rows_Close := λ _ d, d;
  rows_all := λ rows, rows
|}.

Definition plugin : @SqlitePlugin driver :=
  @Build_SqlitePlugin driver
    unit                    (* TagValuesRequest *)
    Scenario.Built          (* searchQueryResponse *)
    Scenario.Built          (* tagValueQueryResponse *)
    Scenario.RowSpan        (* sqliteInternalSpan *)
    (string * string * string)%type   (* sqliteTag *)
    (@buildSearchQuery Scenario.driver Scenario.plugin)
    Scenario.built_query    (* getQuery of a search *)
    Scenario.built_sort     (* getSort *)
    "dynamic tags"          (* buildDynamicTagsQuery *)
    (@buildTagValuesQuery Scenario.driver Scenario.plugin)
    Scenario.built_query    (* getQuery of a lookup *)
    (@scan_span Scenario.driver Scenario.plugin)
    (@toInternalSpan Scenario.driver Scenario.plugin)
    (@scan_tag Scenario.driver Scenario.plugin)
    (λ t, t.1.1)            (* getTableKey *)
    (λ t, t.1.2)            (* getTagName *)
    (λ t, t.2)              (* getTagType *)
    (@scan_value Scenario.driver Scenario.plugin)
    ∅                       (* staticTagTypeMap *)
    unit unit unit unit unit unit unit.

(** Three answers to the lookups of one tag: two different sets of values,
    then a failure. *)
Definition changing_values : @World driver := @mkWorld driver []
  [ inr [ [Some (Scenario.VText "GET"); Some (Scenario.VInt 12)] ];
    inr [ [Some (Scenario.VText "POST"); Some (Scenario.VInt 3)] ];
    inl (errorString "context deadline exceeded") ].

(** A discovery that finds a pair with a NULL source and a row with a
    column missing, and nothing to keep. *)
Definition nothing_to_list : @World driver := @mkWorld driver []
  [ inr [ [None; Some (Scenario.VText "orphan"); Some (Scenario.VText "string")];
          [Some (Scenario.VText "broken")] ] ].

End Scripted.

(** * The filter chip of the web client

    The label functions of [FilterChip.tsx].  A JavaScript string is a
    sequence of UTF-16 code units: [length] counts them and [substring]
    cuts between them. *)

Module FilterChip.

Abbreviation jsstring := (list N).

(** A literal of the source, all of whose characters are ASCII. *)
Definition lit (s : string) : jsstring :=
  Ascii.N_of_ascii <$> String.list_ascii_of_string s.

(** The double quote, U+0022. *)
Definition quote : jsstring := [34%N].

Definition MAX_FILTER_LENGTH : nat := 100.

Section Component.

(** The values of a filter that are neither strings nor arrays (numbers,
    booleans), with what a template literal makes of them. *)
Variable scalar : Type.
Variable ToString : scalar → jsstring.

(** An entry of an array value, of type [string | number]. *)
Inductive element :=
| EString (s : jsstring)
| EScalar (x : scalar).

(** Modelled from the spec: [FilterValueTypes] and the filter of
    [types/common], declared outside the component: a value is a scalar or
    an ordered list of scalars. *)
Inductive FilterValueTypes :=
| VString (s : jsstring)
| VArray (l : list element)
| VScalar (x : scalar).

Record KeyValueFilter := mkKeyValueFilter {
  key : jsstring;
  operator : jsstring;
  value : FilterValueTypes
}.

Definition element_ToString (e : element) : jsstring :=
  match e with EString s => s | EScalar x => ToString x end.

(** What a template literal makes of an array: its entries joined by
    commas. *)
Fixpoint join_comma (l : list element) : jsstring :=
  match l with
  | [] => []
  | [e] => element_ToString e
  | e :: rest => element_ToString e ++ lit "," ++ join_comma rest
  end.

Definition value_ToString (v : FilterValueTypes) : jsstring :=
  match v with
  | VString s => s
  | VArray l => join_comma l
  | VScalar x => ToString x
  end.

Definition formatStrValue (value : jsstring) (filterLength : nat) : jsstring :=
  let value :=
    if bool_decide (MAX_FILTER_LENGTH < filterLength)%nat
    then take MAX_FILTER_LENGTH value ++ lit "..."
    else value in
  quote ++ value ++ quote.

(** The result is a string, or the first entry itself when the array holds
    one entry that is not a string. *)
Definition formatArrayValue (value : list element) (filterLen : nat)
  : jsstring + scalar :=
  let arrLen := length value in
  match value with
  | [] => inl []
  | EString s :: _ =>
      if bool_decide (1 < arrLen)%nat
      then inl (lit "[" ++ quote ++ s ++ quote ++ lit "...+"
                  ++ lit (Sprintf_d (Z.of_nat (arrLen - 1))) ++ lit "]")
      else inl (formatStrValue s filterLen)
  | EScalar x :: _ =>
      if bool_decide (1 < arrLen)%nat
      then inl (lit "[" ++ ToString x ++ lit "...+"
                  ++ lit (Sprintf_d (Z.of_nat (arrLen - 1))) ++ lit "]")
      else inr x
  end.

Definition getFilterLength (filter : KeyValueFilter) : nat :=
  (length (key filter) + length (operator filter)
   + length (value_ToString (value filter)))%nat.

Definition formatFilterValue (filter : KeyValueFilter) (value : FilterValueTypes)
  : jsstring + scalar :=
  let filterLen := getFilterLength filter in
  match value with
  | VString s => inl (formatStrValue s filterLen)
  | VArray l => formatArrayValue l filterLen
  | VScalar x => inr x
  end.

End Component.

Arguments EString {scalar} s.
Arguments EScalar {scalar} x.
Arguments VString {scalar} s.
Arguments VArray {scalar} l.
Arguments VScalar {scalar} x.
Arguments mkKeyValueFilter {scalar} key operator value.
Arguments key {scalar} _.
Arguments operator {scalar} _.
Arguments value {scalar} _.
Arguments formatArrayValue {scalar} ToString value filterLen.
Arguments getFilterLength {scalar} ToString filter.
Arguments formatFilterValue {scalar} ToString filter value.
Arguments value_ToString {scalar} ToString v.
Arguments join_comma {scalar} ToString l.

(** Numbers as integers, printed in decimal, to run the functions on. *)
Definition integer_ToString (z : Z) : jsstring := lit (Sprintf_d z).

End FilterChip.

(** ** Rows that [Scan] rejects *)

(** The errors of the rows that a [Scan] rejects, in the order of the
    rows. *)
Definition scan_errors {A B} (scan : A → error + B) (rows : list A) : list error :=
  omap (λ row, match scan row with inl err => Some err | inr _ => None end) rows.

(** ** Facts about slices and the monad *)

Lemma slice_of_elems {A} (s : slice A) : is_nil s = false → s = slice_of (elems s).
Proof. by destruct s. Qed.

Lemma is_nil_append {A} (s : slice A) x : is_nil (append s x) = false.
Proof. done. Qed.

Lemma len_zero_elems {A} (s : slice A) : len s = 0%nat ↔ elems s = [].
Proof. unfold len. by destruct (elems s). Qed.

Lemma Sprintf_d_scenario : Sprintf_d 50 = "50" ∧ Sprintf_d 0 = "0" ∧ Sprintf_d (-7) = "-7".
Proof. by vm_compute. Qed.

Section ReaderFacts.
Context `{plugin : SqlitePlugin}.

Implicit Types (w : World) (rows : list RawRow) (ctx : context).

Lemma world_eta w : mkWorld (logs w ++ []) (db w) = w.
Proof. destruct w; simpl. by rewrite app_nil_r. Qed.

(** *** Search *)

(** The next-page block is decided by the last entry of the page. *)
Lemma Search_metadata_last sort (l : list (ptr InternalSpan)) :
  Search_metadata sort (slice_of l) =
    match last l with
    | Some (Some s) => Some (mkMetadata (Sprintf_d (sort_field_value sort s)))
    | _ => None
    end.
Proof.
  unfold Search_metadata, len, sort_field_value; simpl.
  destruct l as [|p l]; [done|].
  rewrite bool_decide_eq_true_2 by (simpl; lia).
  rewrite last_lookup. simpl. rewrite Nat.sub_0_r.
  destruct ((p :: l) !! length l) as [[s|]|]; [|done..].
  by case_bool_decide.
Qed.

(** The loop over the rows keeps what was gathered, adds the pointers of the
    rows that decode in their order, writes one record at error level for
    each row that does not, and leaves the store alone. *)
Lemma Search_rows_spec rows : ∀ spans w,
  ∃ s' new,
    Search_rows rows spans w = (s', mkWorld (logs w ++ new) (db w))
    ∧ elems s' = elems spans ++ omap decoded_span rows
    ∧ (is_nil spans = false → is_nil s' = false)
    ∧ entry_err <$> new = omap decode_failure rows
    ∧ Forall (λ e, entry_level e = ErrorLevel) new.
Proof.
  induction rows as [|row rest IH]; intros spans w.
  - exists spans, []. rewrite world_eta, app_nil_r. by repeat split.
  - simpl. unfold decoded_span, decode_failure.
    destruct (scan_span row) as [err|q] eqn:Hscan.
    + destruct (IH spans (mkWorld (logs w ++ [mkEntry ErrorLevel "failed to get span value" err]) (db w)))
        as (s' & new & Hrun & Hel & Hnil & Herr & Hlvl).
      exists s', (mkEntry ErrorLevel "failed to get span value" err :: new).
      unfold mbind, M_bind, logger_Error; simpl in *.
      rewrite Hrun, <- app_assoc. simpl. repeat split; try done.
      * f_equal. exact Herr.
      * by constructor.
    + destruct (toInternalSpan q) as [p [err|]] eqn:Hconv.
      * destruct (IH spans (mkWorld (logs w ++ [mkEntry ErrorLevel "failed to convert span" err]) (db w)))
          as (s' & new & Hrun & Hel & Hnil & Herr & Hlvl).
        exists s', (mkEntry ErrorLevel "failed to convert span" err :: new).
        unfold mbind, M_bind, logger_Error; simpl in *.
        rewrite Hrun, <- app_assoc. simpl. repeat split; try done.
        -- f_equal. exact Herr.
        -- by constructor.
      * destruct (IH (append spans p) w) as (s' & new & Hrun & Hel & Hnil & Herr & Hlvl).
        exists s', new. rewrite Hrun. simpl in *.
        rewrite Hel, <- app_assoc. repeat split; try done.
        intros _. by apply Hnil.
Qed.

(** When the query is built, prepared and run, [Search] succeeds. *)
Lemma Search_run ctx r w sqr stmt d1 rs d2 :
  buildSearchQuery r = inr sqr →
  PrepareContext ctx (search_getQuery sqr) (db w) = (inr stmt, d1) →
  QueryContext stmt ctx d1 = (inr rs, d2) →
  ∃ new,
    Search ctx r w =
      (Some (Search_page (search_getSort sqr) (rows_all rs)), None,
       mkWorld (logs w ++ new) (stmt_Close stmt (rows_Close rs d2)))
    ∧ entry_err <$> new = omap decode_failure (rows_all rs)
    ∧ Forall (λ e, entry_level e = ErrorLevel) new.
Proof.
  intros Hbuild Hprep Hquery.
  destruct (Search_rows_spec (rows_all rs) make0 (mkWorld (logs w) d2))
    as (s' & new & Hrun & Hel & Hnil & Herr & Hlvl).
  exists new. split; [|done].
  unfold Search, defer, sql, mbind, M_bind, mret, M_ret.
  rewrite Hbuild, Hprep. simpl. rewrite Hquery. simpl.
  rewrite Hrun. simpl.
  rewrite (slice_of_elems s') by by apply Hnil.
  rewrite Hel. done.
Qed.

(** A call of [Search] that returns no error has built, prepared and run its
    query. *)
Lemma Search_inv ctx r w resp w' :
  Search ctx r w = (resp, None, w') →
  ∃ sqr stmt d1 rs d2,
    buildSearchQuery r = inr sqr
    ∧ PrepareContext ctx (search_getQuery sqr) (db w) = (inr stmt, d1)
    ∧ QueryContext stmt ctx d1 = (inr rs, d2).
Proof.
  unfold Search, defer, sql, mbind, M_bind, mret, M_ret.
  destruct (buildSearchQuery r) as [err|sqr]; [done|].
  destruct (PrepareContext ctx (search_getQuery sqr) (db w)) as [[err|stmt] d1] eqn:Hprep;
    [done|]. simpl.
  destruct (QueryContext stmt ctx d1) as [[err|rs] d2] eqn:Hquery; [done|].
  intros _. by exists sqr, stmt, d1, rs, d2.
Qed.

Lemma Search_ok ctx r w resp w' :
  Search ctx r w = (resp, None, w') →
  ∃ sqr rs, buildSearchQuery r = inr sqr
    ∧ resp = Some (Search_page (search_getSort sqr) (rows_all rs)).
Proof.
  intros Hs. destruct (Search_inv _ _ _ _ _ Hs) as (sqr & stmt & d1 & rs & d2 & Hb & Hp & Hq).
  destruct (Search_run _ _ _ _ _ _ _ _ Hb Hp Hq) as (new & Hrun & _).
  exists sqr, rs. split; [done|]. congruence.
Qed.

Lemma decoded_or_failed (row : RawRow) :
  decoded_span row = None ↔ is_Some (decode_failure row).
Proof.
  unfold decoded_span, decode_failure.
  destruct (scan_span row) as [err|q]; [by split; eauto|].
  destruct (toInternalSpan q) as [p [err|]]; simpl; split; eauto.
  - done.
  - by intros [? ?].
Qed.

Lemma decoded_span_not_nil rows :
  (∀ q p, toInternalSpan q = (p, None) → p ≠ None) →
  Forall (λ p : ptr InternalSpan, p ≠ None) (omap decoded_span rows).
Proof.
  intros Hconv. induction rows as [|row rest IH]; [constructor|].
  simpl. unfold decoded_span at 1.
  destruct (scan_span row) as [err|q]; [done|].
  destruct (toInternalSpan q) as [p [err|]] eqn:Hq; [done|].
  constructor; [by apply (Hconv q)|done].
Qed.

Lemma last_not_nil (l : list (ptr InternalSpan)) :
  Forall (λ p, p ≠ None) l → l ≠ [] → ∃ s, last l = Some (Some s).
Proof.
  intros Hall Hne. destruct (last l) as [p|] eqn:Hlast.
  - assert (p ∈ l) as Hin by (by apply last_Some_elem_of).
    rewrite Forall_forall in Hall. specialize (Hall _ Hin).
    destruct p as [s|]; [by exists s|done].
  - by apply last_None in Hlast.
Qed.

(** C1: a call of [Search] that succeeds and whose page ends with a span
    carries a next-page block whose token is the decimal string of that
    span's duration when [getSort] answers "duration" and of its start time
    otherwise; a page with no entries carries no next-page block.  When
    [toInternalSpan] never returns a nil pointer without an error, every
    page that is not empty ends with a span. *)
Theorem Search_continuation_token ctx r w resp w' :
  Search ctx r w = (Some resp, None, w') →
  ∃ sqr, buildSearchQuery r = inr sqr
    ∧ (∀ s, last (elems (Spans resp)) = Some (Some s) →
         (search_getSort sqr = "duration" →
            Metadata_ resp
              = Some (mkMetadata (Sprintf_d (DurationNano (ExternalFields_ s)))))
         ∧ (search_getSort sqr ≠ "duration" →
            Metadata_ resp
              = Some (mkMetadata (Sprintf_d (StartTimeUnixNano (Span_ s))))))
    ∧ (len (Spans resp) = 0%nat → Metadata_ resp = None)
    ∧ ((∀ q p, toInternalSpan q = (p, None) → p ≠ None) →
         (0 < len (Spans resp))%nat →
         ∃ s, last (elems (Spans resp)) = Some (Some s)).
Proof.
  intros Hs. destruct (Search_ok _ _ _ _ _ Hs) as (sqr & rs & Hb & Hresp).
  injection Hresp as ->. exists sqr. split; [done|].
  unfold Search_page; simpl. rewrite Search_metadata_last.
  split; [|split].
  - intros s ->. unfold sort_field_value. split; intros Hsort.
    + by rewrite bool_decide_eq_true_2.
    + by rewrite bool_decide_eq_false_2.
  - unfold len; simpl. intros Hlen.
    apply length_zero_iff_nil in Hlen. by rewrite Hlen.
  - unfold len; simpl. intros Hconv Hlen. apply last_not_nil.
    + by apply decoded_span_not_nil.
    + intros Hnil. rewrite Hnil in Hlen. simpl in Hlen. lia.
Qed.

(** C2, as amended: on a call of [Search] that succeeds the next-page block
    is absent exactly when the page does not end with a span, whatever the
    page size asked for; when [toInternalSpan] never returns a nil pointer
    without an error, that is exactly when the page is empty. *)
Theorem Search_cursor_absent_iff ctx r w resp w' :
  Search ctx r w = (Some resp, None, w') →
  (Metadata_ resp = None ↔ ∀ s, last (elems (Spans resp)) ≠ Some (Some s))
  ∧ ((∀ q p, toInternalSpan q = (p, None) → p ≠ None) →
       (Metadata_ resp = None ↔ len (Spans resp) = 0%nat)).
Proof.
  intros Hs. destruct (Search_ok _ _ _ _ _ Hs) as (sqr & rs & Hb & Hresp).
  injection Hresp as ->.
  unfold Search_page; simpl. rewrite Search_metadata_last.
  split.
  - destruct (last (omap decoded_span (rows_all rs))) as [[s|]|]; split;
      try done.
    intros Hno. by destruct (Hno s).
  - intros Hconv. unfold len; simpl. split.
    + intros Hmeta.
      destruct (omap decoded_span (rows_all rs)) as [|p l] eqn:Hl; [done|].
      destruct (last_not_nil (p :: l)) as [s Hlast]; [|done|].
      * rewrite <- Hl. by apply decoded_span_not_nil.
      * by rewrite Hlast in Hmeta.
    + intros Hlen. apply length_zero_iff_nil in Hlen. by rewrite Hlen.
Qed.

(** C3: a call of [Search] that returns no error returns a response whose
    spans are an allocated slice and never the nil one; when no row decodes
    it is the empty slice that [make] allocated. *)
Theorem Search_spans_allocated ctx r w resp w' :
  Search ctx r w = (resp, None, w') →
  ∃ page, resp = Some page
    ∧ is_nil (Spans page) = false
    ∧ (len (Spans page) = 0%nat → Spans page = make0).
Proof.
  intros Hs. destruct (Search_ok _ _ _ _ _ Hs) as (sqr & rs & Hb & ->).
  eexists. split; [done|]. simpl. split; [done|].
  unfold len; simpl. intros Hlen.
  apply length_zero_iff_nil in Hlen. by rewrite Hlen.
Qed.

(** C4: when the query is built, prepared and run, [Search] succeeds
    whatever the rows are: its spans are the pointers of the rows that
    decode, in the order of the rows, and for each row that [Scan] or
    [toInternalSpan] rejects it writes one record to the log, at zap's error
    level and with that row's error, in the order of the rows.  A row
    either decodes or is rejected. *)
Theorem Search_skips_undecodable_rows ctx r w sqr stmt d1 rs d2 :
  buildSearchQuery r = inr sqr →
  PrepareContext ctx (search_getQuery sqr) (db w) = (inr stmt, d1) →
  QueryContext stmt ctx d1 = (inr rs, d2) →
  ∃ resp w' new,
    Search ctx r w = (Some resp, None, w')
    ∧ Spans resp = slice_of (omap decoded_span (rows_all rs))
    ∧ logs w' = logs w ++ new
    ∧ entry_err <$> new = omap decode_failure (rows_all rs)
    ∧ Forall (λ e, entry_level e = ErrorLevel) new
    ∧ (∀ row, decoded_span row = None ↔ is_Some (decode_failure row)).
Proof.
  intros Hb Hp Hq.
  destruct (Search_run _ _ _ _ _ _ _ _ Hb Hp Hq) as (new & Hrun & Herr & Hlvl).
  eexists _, _, new. split; [exact Hrun|].
  repeat split; try done; apply decoded_or_failed.
Qed.

(** *** GetAvailableTags *)

(** The loop over the registry appends one entry per key, under the bare
    key and with the type filed under it. *)
Lemma GetAvailableTags_static_spec tag tags :
  elems (GetAvailableTags_static tag tags).2 = elems tags ++ static_tags.
Proof.
  unfold GetAvailableTags_static, static_tags.
  generalize (map_to_list staticTagTypeMap). intros l.
  revert tag tags. induction l as [|[k v] l IH]; intros tag tags; simpl.
  - by rewrite app_nil_r.
  - rewrite IH. simpl. by rewrite <- app_assoc.
Qed.

(** The loop over the discovered rows appends the qualified entry of each
    scanned pair whose parts are both non-empty, and nothing else. *)
Lemma GetAvailableTags_rows_spec rows : ∀ tag tags w,
  ∃ s' new,
    GetAvailableTags_rows rows tag tags w = (s', mkWorld (logs w ++ new) (db w))
    ∧ elems s' = elems tags ++
        (qualified <$> filter (λ t, getTableKey t ≠ "" ∧ getTagName t ≠ "")
                         (scanned_tags rows)).
Proof.
  induction rows as [|row rest IH]; intros tag tags w.
  - exists tags, []. rewrite world_eta. simpl. by rewrite app_nil_r.
  - simpl. unfold scanned_tags. simpl. fold (scanned_tags rest).
    destruct (scan_tag row) as [err|t] eqn:Hscan.
    + destruct (IH tag tags (mkWorld (logs w ++ [mkEntry ErrorLevel "failed to get tag value" err]) (db w)))
        as (s' & new & Hrun & Hel).
      exists s', (mkEntry ErrorLevel "failed to get tag value" err :: new).
      unfold mbind, M_bind, logger_Error; simpl in *.
      by rewrite Hrun, <- app_assoc.
    + destruct (decide (getTableKey t = "")) as [Hk|Hk].
      { rewrite (bool_decide_eq_true_2 _ Hk). simpl.
        rewrite filter_cons_False by (intros [? ?]; done). apply IH. }
      destruct (decide (getTagName t = "")) as [Hn|Hn].
      { rewrite (bool_decide_eq_true_2 _ Hn), orb_true_r.
        rewrite filter_cons_False by (intros [? ?]; done). apply IH. }
      rewrite (bool_decide_eq_false_2 _ Hk), (bool_decide_eq_false_2 _ Hn).
      simpl. rewrite filter_cons_True by done.
      match goal with |- context [GetAvailableTags_rows rest ?tg ?tgs w] =>
        destruct (IH tg tgs w) as (s' & new & Hrun & Hel) end.
      exists s', new. split; [done|].
      rewrite Hel. simpl. by rewrite <- app_assoc.
Qed.

(** A call of [GetAvailableTags] that succeeds has prepared and run the
    discovery query, and lists the registry followed by the kept pairs. *)
Lemma GetAvailableTags_ok ctx r w resp w' :
  GetAvailableTags ctx r w = (Some resp, None, w') →
  ∃ stmt d1 rs d2,
    PrepareContext ctx buildDynamicTagsQuery (db w) = (inr stmt, d1)
    ∧ QueryContext stmt ctx d1 = (inr rs, d2)
    ∧ elems (Tags resp) = static_tags ++
        (qualified <$> filter (λ t, getTableKey t ≠ "" ∧ getTagName t ≠ "")
                         (scanned_tags (rows_all rs))).
Proof.
  unfold GetAvailableTags, defer, sql, mbind, M_bind, mret, M_ret.
  pose proof (GetAvailableTags_static_spec (mkTagInfo "" "") nil_slice) as Hst.
  destruct (GetAvailableTags_static (mkTagInfo "" "") nil_slice) as [tag tags].
  simpl in Hst.
  destruct (PrepareContext ctx buildDynamicTagsQuery (db w)) as [[err|stmt] d1] eqn:Hprep;
    [done|]. simpl.
  destruct (QueryContext stmt ctx d1) as [[err|rs] d2] eqn:Hquery; [done|]. simpl.
  destruct (GetAvailableTags_rows_spec (rows_all rs) tag tags (mkWorld (logs w) d2))
    as (s' & new & Hrun & Hel).
  rewrite Hrun. simpl. intros [= <- <-].
  exists stmt, d1, rs, d2. simpl. by rewrite Hel, Hst.
Qed.

Lemma static_tags_names : tag_Name <$> static_tags = (map_to_list staticTagTypeMap).*1.
Proof. unfold static_tags. by rewrite <- list_fmap_compose. Qed.

Lemma elem_of_static_tags ti :
  ti ∈ static_tags ↔ staticTagTypeMap !! tag_Name ti = Some (tag_Type ti).
Proof.
  unfold static_tags. rewrite list_elem_of_fmap. split.
  - intros ([k v] & -> & Hin). by apply elem_of_map_to_list in Hin.
  - intros Hl. exists (tag_Name ti, tag_Type ti). split; [by destruct ti|].
    by apply elem_of_map_to_list.
Qed.

Lemma elem_of_static_names name :
  name ∈ tag_Name <$> static_tags ↔ is_Some (staticTagTypeMap !! name).
Proof.
  rewrite list_elem_of_fmap. split.
  - intros (ti & -> & Hin). apply elem_of_static_tags in Hin. eauto.
  - intros [ty Hty]. exists (mkTagInfo name ty). split; [done|].
    by apply elem_of_static_tags.
Qed.

(** C5: a call of [GetAvailableTags] that succeeds lists every entry of the
    static registry under its bare name; after them come, in the order of
    the rows, the entries of the discovered pairs whose source key and field
    name are both non-empty, each named [source.field] and with the type
    the row reports, and nothing else: a pair with an empty part adds no
    entry. *)
Theorem GetAvailableTags_static_and_discovered ctx r w resp w' :
  GetAvailableTags ctx r w = (Some resp, None, w') →
  ∃ stmt d1 rs d2,
    PrepareContext ctx buildDynamicTagsQuery (db w) = (inr stmt, d1)
    ∧ QueryContext stmt ctx d1 = (inr rs, d2)
    ∧ (∀ name ty, staticTagTypeMap !! name = Some ty →
         mkTagInfo name ty ∈ elems (Tags resp))
    ∧ (∀ t, t ∈ scanned_tags (rows_all rs) →
         getTableKey t ≠ "" → getTagName t ≠ "" →
         mkTagInfo (getTableKey t +:+ "." +:+ getTagName t) (getTagType t)
           ∈ elems (Tags resp))
    ∧ (∃ discovered,
         elems (Tags resp) = static_tags ++ discovered
         ∧ discovered =
             (λ t, mkTagInfo (getTableKey t +:+ "." +:+ getTagName t) (getTagType t))
               <$> filter (λ t, getTableKey t ≠ "" ∧ getTagName t ≠ "")
                     (scanned_tags (rows_all rs))
         ∧ length static_tags = size staticTagTypeMap).
Proof.
  intros Hs. destruct (GetAvailableTags_ok _ _ _ _ _ Hs) as (stmt & d1 & rs & d2 & Hp & Hq & Hel).
  exists stmt, d1, rs, d2. split; [done|]. split; [done|].
  rewrite Hel. split; [|split].
  - intros name ty Hl. apply elem_of_app. left.
    by apply elem_of_static_tags.
  - intros t Hin Hk Hn. apply elem_of_app. right.
    apply list_elem_of_fmap. exists t. split; [done|].
    by apply list_elem_of_filter.
  - eexists. split; [reflexivity|]. split; [done|].
    unfold static_tags. by rewrite length_fmap, length_map_to_list.
Qed.

(** C6, as amended: the entries of the static registry have pairwise
    different names, and the whole list has pairwise different names exactly
    when the qualified names of the kept discovered pairs are pairwise
    different and none of them is a name of the static registry. *)
Theorem GetAvailableTags_names_distinct_iff ctx r w resp w' :
  GetAvailableTags ctx r w = (Some resp, None, w') →
  ∃ stmt d1 rs d2,
    PrepareContext ctx buildDynamicTagsQuery (db w) = (inr stmt, d1)
    ∧ QueryContext stmt ctx d1 = (inr rs, d2)
    ∧ NoDup (tag_Name <$> static_tags)
    ∧ (NoDup (tag_Name <$> elems (Tags resp)) ↔
         NoDup (tag_Name <$> (qualified <$>
                  filter (λ t, getTableKey t ≠ "" ∧ getTagName t ≠ "")
                    (scanned_tags (rows_all rs))))
         ∧ ∀ t, t ∈ scanned_tags (rows_all rs) →
             getTableKey t ≠ "" → getTagName t ≠ "" →
             staticTagTypeMap !! (getTableKey t +:+ "." +:+ getTagName t) = None).
Proof.
  intros Hs. destruct (GetAvailableTags_ok _ _ _ _ _ Hs) as (stmt & d1 & rs & d2 & Hp & Hq & Hel).
  exists stmt, d1, rs, d2. split; [done|]. split; [done|].
  assert (NoDup (tag_Name <$> static_tags)) as Hstatic.
  { rewrite static_tags_names. apply NoDup_fst_map_to_list. }
  split; [done|].
  rewrite Hel, fmap_app, NoDup_app. split.
  - intros (_ & Hdisj & Hdyn). split; [done|].
    intros t Hin Hk Hn.
    destruct (staticTagTypeMap !! (getTableKey t +:+ "." +:+ getTagName t))
      as [ty|] eqn:Hl; [|done].
    exfalso. apply (Hdisj (getTableKey t +:+ "." +:+ getTagName t)).
    + apply elem_of_static_names. eauto.
    + apply list_elem_of_fmap. exists (qualified t). split; [done|].
      apply list_elem_of_fmap. exists t. split; [done|].
      by apply list_elem_of_filter.
  - intros (Hdyn & Hfresh). split; [done|]. split; [|done].
    intros name Hst Hin. apply elem_of_static_names in Hst as [ty Hty].
    apply list_elem_of_fmap in Hin as (ti & -> & Hin).
    apply list_elem_of_fmap in Hin as (t & -> & Hin).
    apply list_elem_of_filter in Hin as ((Hk & Hn) & Hin).
    specialize (Hfresh t Hin Hk Hn). simpl in Hty. congruence.
Qed.

(** *** GetTagValues *)

(** The loop over the value rows appends one entry for each row that [Scan]
    accepts with a value that is not nil; when there is no such row the
    slice is the one it started from. *)
Lemma GetTagValues_rows_spec rows : ∀ (cur : slice TagValueInfo) w,
  ∃ s' new,
    GetTagValues_rows rows cur w = (s', mkWorld (logs w ++ new) (db w))
    ∧ elems s' = elems cur ++
        ((λ vc, mkTagValueInfo (Some vc.1) vc.2) <$> scanned_values rows)
    ∧ (scanned_values rows = [] → s' = cur).
Proof.
  induction rows as [|row rest IH]; intros cur w.
  - exists cur, []. rewrite world_eta. simpl. by rewrite app_nil_r.
  - simpl. unfold scanned_values. simpl. fold (scanned_values rest).
    destruct (scan_value row) as [err|[[v|] c]] eqn:Hscan.
    + destruct (IH cur (mkWorld (logs w ++ [mkEntry ErrorLevel "failed to get tag value" err]) (db w)))
        as (s' & new & Hrun & Hel & Hsame).
      exists s', (mkEntry ErrorLevel "failed to get tag value" err :: new).
      unfold mbind, M_bind, logger_Error; simpl in *.
      by rewrite Hrun, <- app_assoc.
    + destruct (IH (append cur (mkTagValueInfo (Some v) c)) w)
        as (s' & new & Hrun & Hel & Hsame).
      exists s', new. split; [done|]. split; [|done].
      rewrite Hel. simpl. by rewrite <- app_assoc.
    + apply IH.
Qed.

(** When the query is built, prepared and run, [GetTagValues] succeeds. *)
Lemma GetTagValues_run ctx r tag w q stmt d1 rs d2 :
  buildTagValuesQuery r tag = inr q →
  PrepareContext ctx (tagValue_getQuery q) (db w) = (inr stmt, d1) →
  QueryContext stmt ctx d1 = (inr rs, d2) →
  ∃ vals new,
    GetTagValues ctx r tag w =
      (Some (mkTagValuesResponse vals), None,
       mkWorld (logs w ++ new) (stmt_Close stmt (rows_Close rs d2)))
    ∧ elems vals =
        (λ vc, mkTagValueInfo (Some vc.1) vc.2) <$> scanned_values (rows_all rs)
    ∧ (scanned_values (rows_all rs) = [] → vals = nil_slice).
Proof.
  intros Hbuild Hprep Hquery.
  destruct (GetTagValues_rows_spec (rows_all rs) nil_slice (mkWorld (logs w) d2))
    as (s' & new & Hrun & Hel & Hsame).
  exists s', new. split; [|done].
  unfold GetTagValues, defer, sql, mbind, M_bind, mret, M_ret.
  rewrite Hbuild, Hprep. simpl. rewrite Hquery. simpl.
  by rewrite Hrun.
Qed.

(** A lookup returns a response and no error, or an error and no
    response; in the first case it has built, prepared and run its query.
    Either way the log only grows. *)
Lemma GetTagValues_cases ctx r tag w :
  ∃ new dbw,
    (GetTagValues ctx r tag w).2 = mkWorld (logs w ++ new) dbw
    ∧ ((∃ err, (GetTagValues ctx r tag w).1 = (None, Some err))
       ∨ (∃ resp q stmt d1 rs d2,
            (GetTagValues ctx r tag w).1 = (Some resp, None)
            ∧ buildTagValuesQuery r tag = inr q
            ∧ PrepareContext ctx (tagValue_getQuery q) (db w) = (inr stmt, d1)
            ∧ QueryContext stmt ctx d1 = (inr rs, d2))).
Proof.
  destruct (buildTagValuesQuery r tag) as [err|q] eqn:Hbuild.
  { unfold GetTagValues, mbind, M_bind, mret, M_ret, logger_Error.
    rewrite Hbuild. simpl. eexists _, _. split; [reflexivity|]. left. eauto. }
  destruct (PrepareContext ctx (tagValue_getQuery q) (db w)) as [[err|stmt] d1] eqn:Hprep.
  { unfold GetTagValues, sql, mbind, M_bind, mret, M_ret, logger_Error.
    rewrite Hbuild, Hprep. simpl. eexists _, _. split; [reflexivity|]. left. eauto. }
  destruct (QueryContext stmt ctx d1) as [[err|rs] d2] eqn:Hquery.
  { unfold GetTagValues, defer, sql, mbind, M_bind, mret, M_ret, logger_Error.
    rewrite Hbuild, Hprep. simpl. rewrite Hquery. simpl.
    eexists _, _. split; [reflexivity|]. left. eauto. }
  destruct (GetTagValues_run _ _ _ _ _ _ _ _ _ Hbuild Hprep Hquery)
    as (vals & new & Hrun & _).
  rewrite Hrun. simpl. eexists _, _. split; [reflexivity|].
  right. by exists (mkTagValuesResponse vals), q, stmt, d1, rs, d2.
Qed.

(** C7: a call of [GetTagValues] that succeeds has built, prepared and run
    its query, and its values are, in the order of the rows, one entry with
    the value and the count of each row that [Scan] accepts and whose value
    is not nil; no entry has a nil value. *)
Theorem GetTagValues_no_nil_value ctx r tag w resp w' :
  GetTagValues ctx r tag w = (Some resp, None, w') →
  ∃ q stmt d1 rs d2,
    buildTagValuesQuery r tag = inr q
    ∧ PrepareContext ctx (tagValue_getQuery q) (db w) = (inr stmt, d1)
    ∧ QueryContext stmt ctx d1 = (inr rs, d2)
    ∧ elems (Values resp) =
        (λ vc, mkTagValueInfo (Some vc.1) vc.2) <$> scanned_values (rows_all rs)
    ∧ Forall (λ e, tv_Value e ≠ None) (elems (Values resp)).
Proof.
  intros Hs.
  destruct (GetTagValues_cases ctx r tag w) as (new & dbw & _ & [[err He]|Hok]).
  { rewrite Hs in He. done. }
  destruct Hok as (resp0 & q & stmt & d1 & rs & d2 & _ & Hb & Hp & Hq).
  destruct (GetTagValues_run _ _ _ _ _ _ _ _ _ Hb Hp Hq) as (vals & new' & Hrun & Hel & _).
  rewrite Hrun in Hs. injection Hs as <- _.
  exists q, stmt, d1, rs, d2. repeat (split; [done|]). simpl.
  rewrite Hel. apply Forall_fmap, Forall_forall. by intros [v c] _.
Qed.

(** *** GetTagsValues *)

(** After a run of map writes a key holds what was written to it last. *)
Lemma foldl_insert_lookup {V} (kvs : list (string * V)) :
  ∀ (m : gmap string V) k,
    foldl (λ m kv, <[kv.1 := kv.2]> m) m kvs !! k =
      match last (filter (λ kv, kv.1 = k) kvs) with
      | Some kv => Some kv.2
      | None => m !! k
      end.
Proof.
  induction kvs as [|[k' v] kvs IH]; intros m k; [done|].
  simpl. rewrite IH. destruct (decide (k' = k)) as [->|Hne].
  - rewrite filter_cons_True by done. rewrite last_cons.
    destruct (last (filter _ kvs)); [done|]. simpl. by rewrite lookup_insert_eq.
  - rewrite filter_cons_False by done.
    destruct (last (filter _ kvs)); [done|]. by rewrite lookup_insert_ne.
Qed.

Lemma elem_of_successes os tag x :
  (tag, x) ∈ successes os ↔ (tag, (x, None)) ∈ os.
Proof.
  unfold successes. rewrite list_elem_of_omap. split.
  - intros ([t [y [e|]]] & Hin & Heq); simpl in *; [done|]. by injection Heq as -> ->.
  - intros Hin. by exists (tag, (x, None)).
Qed.

Lemma lookups_tags ctx r tags : ∀ w, (lookups ctx r tags w).*1 = tags.
Proof.
  induction tags as [|tag rest IH]; intros w; [done|].
  simpl. destruct (GetTagValues ctx r tag w) as [res w1]. simpl. by rewrite IH.
Qed.

(** A lookup of a batch that returns no error returns a response. *)
Lemma lookups_success ctx r tags : ∀ w tag x,
  (tag, (x, None)) ∈ lookups ctx r tags w → ∃ resp, x = Some resp.
Proof.
  induction tags as [|t rest IH]; intros w tag x Hin; simpl in Hin.
  - by apply elem_of_nil in Hin.
  - destruct (GetTagValues_cases ctx r t w) as (new & dbw & _ & Hshape).
    destruct (GetTagValues ctx r t w) as [res w1]. simpl in *.
    apply elem_of_cons in Hin as [Heq|Hin]; [|by eapply IH].
    injection Heq as -> Hres.
    destruct Hshape as [[err He]|(resp & ? & ? & ? & ? & ? & Hr & _)];
      rewrite <- Hres in *; [done|].
    injection Hr as -> . eauto.
Qed.

(** The loop of the batch writes the successful lookups into the map in
    their order, and writes a record to the log for each failed one. *)
Lemma GetTagsValues_tags_spec ctx r tags : ∀ result w,
  ∃ new dbw,
    GetTagsValues_tags ctx r tags result w =
      (foldl (λ m kv, <[kv.1 := kv.2]> m) result
         (successes (lookups ctx r tags w)),
       mkWorld (logs w ++ new) dbw)
    ∧ ∀ tag x e, (tag, (x, Some e)) ∈ lookups ctx r tags w →
        mkEntry ErrorLevel "failed to get tag value" e ∈ new.
Proof.
  induction tags as [|tag rest IH]; intros result w.
  - exists [], (db w). rewrite world_eta. split; [done|].
    intros ??? Hin. by apply elem_of_nil in Hin.
  - simpl. unfold mbind, M_bind.
    destruct (GetTagValues_cases ctx r tag w) as (new1 & dbw1 & Hw & _).
    destruct (GetTagValues ctx r tag w) as [[resp [e|]] w1]; simpl in *; subst w1.
    + unfold logger_Error. simpl.
      match goal with |- context [GetTagsValues_tags ctx r rest result ?w2] =>
        destruct (IH result w2) as (new2 & dbw2 & Hrun & Hlog) end.
      simpl in *. exists (new1 ++ mkEntry ErrorLevel "failed to get tag value" e :: new2), dbw2.
      rewrite Hrun. split.
      * f_equal. f_equal. rewrite <- !app_assoc. done.
      * intros t x e' Hin. apply elem_of_cons in Hin as [Heq|Hin].
        -- injection Heq as -> -> ->. apply elem_of_app. right. constructor.
        -- apply elem_of_app. right. apply elem_of_cons. right. by eapply Hlog.
    + match goal with |- context [GetTagsValues_tags ctx r rest ?m ?w2] =>
        destruct (IH m w2) as (new2 & dbw2 & Hrun & Hlog) end.
      simpl in *. exists (new1 ++ new2), dbw2.
      rewrite Hrun. split.
      * by rewrite <- app_assoc.
      * intros t x e' Hin. apply elem_of_cons in Hin as [Heq|Hin]; [done|].
        apply elem_of_app. right. by eapply Hlog.
Qed.

(** What a key of the batch result holds, from the lookups of the batch. *)
Lemma GetTagsValues_lookup ctx r tags w tag :
  (GetTagsValues ctx r tags w).1.1 !! tag =
    match last (filter (λ kv, kv.1 = tag) (successes (lookups ctx r tags w))) with
    | Some kv => Some kv.2
    | None => None
    end.
Proof.
  unfold GetTagsValues, mbind, M_bind, mret, M_ret.
  destruct (GetTagsValues_tags_spec ctx r tags ∅ w) as (new & dbw & Hrun & _).
  rewrite Hrun. simpl. by rewrite foldl_insert_lookup, lookup_empty.
Qed.

Lemma last_filter_key {V} (kvs : list (string * V)) k :
  match last (filter (λ kv, kv.1 = k) kvs) with
  | Some kv => kv.1 = k ∧ kv ∈ kvs
  | None => ∀ v, (k, v) ∉ kvs
  end.
Proof.
  destruct (last (filter _ kvs)) as [kv|] eqn:Hlast.
  - apply last_Some_elem_of, list_elem_of_filter in Hlast. done.
  - apply last_None in Hlast. intros v Hin.
    assert ((k, v) ∈ filter (λ kv : string * V, kv.1 = k) kvs) as Hf
      by (by apply list_elem_of_filter).
    rewrite Hlast in Hf. by apply elem_of_nil in Hf.
Qed.

(** A tag with a successful lookup is a key of the batch result, bound to
    the response of one of its successful lookups. *)
Lemma GetTagsValues_present ctx r tags w tag x :
  (tag, (x, None)) ∈ lookups ctx r tags w →
  ∃ resp, (GetTagsValues ctx r tags w).1.1 !! tag = Some (Some resp)
    ∧ (tag, (Some resp, None)) ∈ lookups ctx r tags w.
Proof.
  intros Hin. rewrite GetTagsValues_lookup.
  pose proof (last_filter_key (successes (lookups ctx r tags w)) tag) as Hl.
  destruct (last _) as [[k v]|].
  - destruct Hl as [Hk Hin']. simpl in Hk. subst k.
    apply elem_of_successes in Hin'.
    destruct (lookups_success _ _ _ _ _ _ Hin') as [resp ->]. eauto.
  - apply elem_of_successes in Hin. by destruct (Hl x).
Qed.

Lemma scanned_values_none rows :
  (∀ row, row ∈ rows →
     (∃ err, scan_value row = inl err) ∨ (∃ c, scan_value row = inr (None, c))) →
  scanned_values rows = [].
Proof.
  induction rows as [|row rest IH]; intros Hrows; [done|].
  assert (scanned_values rest = []) as Hrest
    by (apply IH; intros; apply Hrows; by right).
  unfold scanned_values in *. simpl.
  destruct (Hrows row) as [[err ->]|[c ->]]; [by left|done..].
Qed.

Lemma NoDup_fst_unique {A B} (l : list (A * B)) k v1 v2 :
  NoDup l.*1 → (k, v1) ∈ l → (k, v2) ∈ l → v1 = v2.
Proof.
  induction l as [|[k' v'] l IH]; simpl; intros Hnd H1 H2.
  - by apply elem_of_nil in H1.
  - apply NoDup_cons in Hnd as [Hfresh Hnd].
    assert (∀ v, (k', v) ∈ l → False) as Hno.
    { intros v Hin. apply Hfresh, list_elem_of_fmap. by exists (k', v). }
    apply elem_of_cons in H1 as [Heq1|H1]; apply elem_of_cons in H2 as [Heq2|H2].
    + congruence.
    + injection Heq1 as -> ->. by destruct (Hno v2).
    + injection Heq2 as -> ->. by destruct (Hno v1).
    + by apply IH.
Qed.

(** A tag none of whose lookups succeeds is not a key of the batch
    result. *)
Lemma GetTagsValues_absent ctx r tags w tag :
  (∀ x e, (tag, (x, e)) ∈ lookups ctx r tags w → e ≠ None) →
  (GetTagsValues ctx r tags w).1.1 !! tag = None.
Proof.
  intros Hfail. rewrite GetTagsValues_lookup.
  pose proof (last_filter_key (successes (lookups ctx r tags w)) tag) as Hl.
  destruct (last _) as [[k v]|]; [|done].
  destruct Hl as [Hk Hin]. simpl in Hk. subst k.
  apply elem_of_successes in Hin. by destruct (Hfail _ _ Hin).
Qed.

(** A tag all of whose successful lookups return the same is bound to
    it. *)
Lemma GetTagsValues_bound ctx r tags w tag x :
  (tag, (x, None)) ∈ lookups ctx r tags w →
  (∀ y, (tag, (y, None)) ∈ lookups ctx r tags w → y = x) →
  (GetTagsValues ctx r tags w).1.1 !! tag = Some x.
Proof.
  intros Hin Huniq. rewrite GetTagsValues_lookup.
  pose proof (last_filter_key (successes (lookups ctx r tags w)) tag) as Hl.
  destruct (last _) as [[k v]|].
  - destruct Hl as [Hk Hin']. simpl in Hk. subst k.
    apply elem_of_successes in Hin'. simpl. f_equal. by apply Huniq.
  - apply elem_of_successes in Hin. by destruct (Hl x).
Qed.

(** C8: a batch call over any list of tags returns no error.  It looks
    every tag of the list up, in their order.  When no tag is listed twice,
    a tag whose lookup fails is not a key of the result and a tag whose
    lookup succeeds is bound to its response.  In general (the store may
    change between two lookups of one tag) a tag none of whose lookups
    succeeds is not a key, and a tag with a successful lookup is a key,
    bound to the response of a successful lookup of it.  Every failed
    lookup leaves a record with its error in the log. *)
Theorem GetTagsValues_isolates_failures ctx r tags w :
  ∃ result w',
    GetTagsValues ctx r tags w = (result, None, w')
    ∧ (lookups ctx r tags w).*1 = tags
    ∧ (NoDup tags → ∀ tag x e, (tag, (x, e)) ∈ lookups ctx r tags w →
         match e with
         | Some _ => result !! tag = None
         | None => ∃ resp, x = Some resp ∧ result !! tag = Some (Some resp)
         end)
    ∧ (∀ tag, (∀ x e, (tag, (x, e)) ∈ lookups ctx r tags w → e ≠ None) →
         result !! tag = None)
    ∧ (∀ tag x, (tag, (x, None)) ∈ lookups ctx r tags w →
         ∃ resp, result !! tag = Some (Some resp)
           ∧ (tag, (Some resp, None)) ∈ lookups ctx r tags w)
    ∧ (∀ tag x e, (tag, (x, Some e)) ∈ lookups ctx r tags w →
         mkEntry ErrorLevel "failed to get tag value" e ∈ logs w').
Proof.
  pose proof (GetTagsValues_absent ctx r tags w) as Habsent.
  pose proof (GetTagsValues_present ctx r tags w) as Hpresent.
  pose proof (GetTagsValues_bound ctx r tags w) as Hbound.
  destruct (GetTagsValues_tags_spec ctx r tags ∅ w) as (new & dbw & Hrun & Hlog).
  unfold GetTagsValues, mbind, M_bind, mret, M_ret in *.
  rewrite Hrun in *. simpl in Habsent, Hpresent, Hbound.
  eexists _, _. split; [reflexivity|]. split; [apply lookups_tags|].
  split; [|split; [|split]]; [|done..|].
  - intros Hnd tag x e Hin.
    assert (NoDup (lookups ctx r tags w).*1) as Hnd' by by rewrite lookups_tags.
    destruct e as [err|].
    + apply Habsent. intros y e' Hin'.
      by injection (NoDup_fst_unique _ _ _ _ Hnd' Hin' Hin) as _ ->.
    + destruct (lookups_success _ _ _ _ _ _ Hin) as [resp ->].
      exists resp. split; [done|]. apply Hbound; [done|].
      intros y Hin'.
      by injection (NoDup_fst_unique _ _ _ _ Hnd' Hin' Hin).
  - intros tag x e Hin. simpl. apply elem_of_app. right. by eapply Hlog.
Qed.

(** *** The methods the plugin leaves out *)

(** What the three methods return, whatever the context, the request and
    the world: a nil result and an error made from a constant message, with
    the log and the store as they were.  The error carries its message and
    nothing else. *)
Lemma unimplemented_methods ctx w :
  (∀ r, GetSystemId ctx r w
          = (None, Some (errorString "Not implemented method"), w))
  ∧ (∀ r, SetSystemId ctx r w
            = (None, Some (errorString "Not implemented method"), w))
  ∧ (∀ r tag, GetTagsStatistics ctx r tag w
                = (None,
                   Some (errorString
                     "GetTagsStatistics is not yet implemented for sqlite plugin"),
                   w)).
Proof. by repeat split. Qed.

(** *** A tag without values *)

(** C10: when the query of a tag is built, prepared and run, and every row
    is rejected by [Scan] or has a nil value, [GetTagValues] succeeds with a
    response that is not nil and holds no value (its values are the nil
    slice, of length zero), and a batch call for that tag binds the tag to
    this response.  In any batch, a tag with a
    successful lookup, all of them without values, is a key of the result,
    bound to a response without values. *)
Theorem GetTagValues_no_values ctx r tag w q stmt d1 rs d2 :
  buildTagValuesQuery r tag = inr q →
  PrepareContext ctx (tagValue_getQuery q) (db w) = (inr stmt, d1) →
  QueryContext stmt ctx d1 = (inr rs, d2) →
  (∀ row, row ∈ rows_all rs →
     (∃ err, scan_value row = inl err) ∨ (∃ c, scan_value row = inr (None, c))) →
  (∃ resp w1,
     GetTagValues ctx r tag w = (Some resp, None, w1)
     ∧ Values resp = nil_slice
     ∧ len (Values resp) = 0%nat
     ∧ ∃ result w2,
         GetTagsValues ctx r [tag] w = (result, None, w2)
         ∧ result !! tag = Some (Some resp))
  ∧ (∀ tags w0 x,
       (tag, (x, None)) ∈ lookups ctx r tags w0 →
       (∀ y, (tag, (Some y, None)) ∈ lookups ctx r tags w0 → len (Values y) = 0%nat) →
       ∃ resp, (GetTagsValues ctx r tags w0).1.1 !! tag = Some (Some resp)
         ∧ len (Values resp) = 0%nat).
Proof.
  intros Hb Hp Hq Hrows. split.
  - destruct (GetTagValues_run _ _ _ _ _ _ _ _ _ Hb Hp Hq) as (vals & new & Hrun & Hel & Hnil).
    assert (scanned_values (rows_all rs) = []) as Hnone
      by (by apply scanned_values_none).
    rewrite Hnone in Hel. exists (mkTagValuesResponse vals).
    eexists. split; [exact Hrun|]. split; [by apply Hnil|].
    split; [unfold len; simpl; by rewrite Hel|].
    unfold GetTagsValues, mbind, M_bind, mret, M_ret. simpl.
    unfold mbind, M_bind, mret, M_ret. rewrite Hrun. simpl.
    eexists _, _. split; [reflexivity|]. by rewrite lookup_insert_eq.
  - intros tags w0 x Hin Hempty.
    destruct (GetTagsValues_present ctx r tags w0 tag x Hin)
      as (resp & Hl & Hin').
    exists resp. split; [done|]. by apply Hempty.
Qed.

End ReaderFacts.

(** ** Errors, the log and the store *)

Lemma parse_Sprintf_d z : parse_decimal (Sprintf_d z) = Some z.
Proof.
  unfold parse_decimal, Sprintf_d.
  rewrite NilZero.isi.
  - simpl. by rewrite DecimalZ.of_to.
  - destruct z as [|p|p]; simpl; [done| |done].
    intros [= Hp]. by apply (DecimalPos.Unsigned.to_uint_nonnil p).
  - destruct z as [|p|p]; simpl; [done..|].
    intros [= Hp]. by apply (DecimalPos.Unsigned.to_uint_nonnil p).
Qed.

Section ReaderPaths.
Context `{plugin : SqlitePlugin}.

Implicit Types (w : World) (rows : list RawRow) (ctx : context).

(** [Search], stage by stage. *)
Lemma Search_cases ctx r w :
  Search ctx r w =
    match buildSearchQuery r with
    | inl err => (None, Some err, w)
    | inr sqr =>
        match PrepareContext ctx (search_getQuery sqr) (db w) with
        | (inl err, d1) =>
            (None, Some (Errorf_v "failed to prepare query: " err),
             mkWorld (logs w) d1)
        | (inr stmt, d1) =>
            match QueryContext stmt ctx d1 with
            | (inl err, d2) =>
                (None, Some (Errorf_v "failed to query spans: " err),
                 mkWorld (logs w) (stmt_Close stmt d2))
            | (inr rs, d2) =>
                let '(spans, w1) :=
                  Search_rows (rows_all rs) make0 (mkWorld (logs w) d2) in
                (Some (mkSearchResponse spans
                         (Search_metadata (search_getSort sqr) spans)),
                 None,
                 mkWorld (logs w1) (stmt_Close stmt (rows_Close rs (db w1))))
            end
        end
    end.
Proof.
  unfold Search, defer, sql, mbind, M_bind, mret, M_ret.
  destruct (buildSearchQuery r) as [err|sqr]; [done|].
  destruct (PrepareContext ctx (search_getQuery sqr) (db w)) as [[err|stmt] d1];
    [done|]. simpl.
  destruct (QueryContext stmt ctx d1) as [[err|rs] d2]; [done|]. simpl.
  by destruct (Search_rows (rows_all rs) make0 (mkWorld (logs w) d2)).
Qed.

(** X1: a call of [Search] that returns an error returns no response and
    writes nothing to the log.  The error is the builder's own when the
    query cannot be built, and then the store is not touched; it is the
    driver's message behind "failed to prepare query: " when the statement
    cannot be prepared, and behind "failed to query spans: " when it cannot
    be run, and then the statement has been closed. *)
Theorem Search_error ctx r w resp e w' :
  Search ctx r w = (resp, Some e, w') →
  resp = None
  ∧ logs w' = logs w
  ∧ ((buildSearchQuery r = inl e ∧ w' = w)
     ∨ (∃ sqr cause d1,
          buildSearchQuery r = inr sqr
          ∧ PrepareContext ctx (search_getQuery sqr) (db w) = (inl cause, d1)
          ∧ Error e = "failed to prepare query: " +:+ Error cause
          ∧ db w' = d1)
     ∨ (∃ sqr stmt d1 cause d2,
          buildSearchQuery r = inr sqr
          ∧ PrepareContext ctx (search_getQuery sqr) (db w) = (inr stmt, d1)
          ∧ QueryContext stmt ctx d1 = (inl cause, d2)
          ∧ Error e = "failed to query spans: " +:+ Error cause
          ∧ db w' = stmt_Close stmt d2)).
Proof.
  rewrite Search_cases.
  destruct (buildSearchQuery r) as [err|sqr] eqn:Hb.
  { intros [= <- <- <-]. split; [done|]. split; [done|]. by left. }
  destruct (PrepareContext ctx (search_getQuery sqr) (db w)) as [[cause|stmt] d1] eqn:Hp.
  { intros [= <- <- <-]. split; [done|]. split; [done|].
    right; left. by exists sqr, cause, d1. }
  destruct (QueryContext stmt ctx d1) as [[cause|rs] d2] eqn:Hq.
  { intros [= <- <- <-]. split; [done|]. split; [done|].
    right; right. by exists sqr, stmt, d1, cause, d2. }
  by destruct (Search_rows (rows_all rs) make0 (mkWorld (logs w) d2)).
Qed.

(** X2: a call of [Search] that succeeds accounts for every row the cursor
    yields: the number of spans in the page and the number of records the
    call adds to the log sum to the number of rows. *)
Theorem Search_accounts_for_rows ctx r w resp w' :
  Search ctx r w = (Some resp, None, w') →
  ∃ sqr stmt d1 rs d2 new,
    buildSearchQuery r = inr sqr
    ∧ PrepareContext ctx (search_getQuery sqr) (db w) = (inr stmt, d1)
    ∧ QueryContext stmt ctx d1 = (inr rs, d2)
    ∧ logs w' = logs w ++ new
    ∧ (len (Spans resp) + length new = length (rows_all rs))%nat.
Proof.
  intros Hs.
  destruct (Search_inv _ _ _ _ _ Hs) as (sqr & stmt & d1 & rs & d2 & Hb & Hp & Hq).
  destruct (Search_run _ _ _ _ _ _ _ _ Hb Hp Hq) as (new & Hrun & Herr & _).
  rewrite Hrun in Hs. injection Hs as <- <-.
  exists sqr, stmt, d1, rs, d2, new. repeat (split; [done|]).
  unfold Search_page, len. simpl.
  assert (length new = length (omap decode_failure (rows_all rs))) as ->
    by (by rewrite <- Herr, length_fmap).
  generalize (rows_all rs). intros rows.
  induction rows as [|row rest IH]; [done|]. simpl.
  pose proof (decoded_or_failed row) as Hrow.
  destruct (decoded_span row) as [p|], (decode_failure row) as [err|]; simpl.
  - assert (Some p = None) by (apply Hrow; eauto). done.
  - f_equal. exact IH.
  - rewrite Nat.add_succ_r. f_equal. exact IH.
  - by destruct (proj1 Hrow eq_refl).
Qed.

(** X3: the token of a page can be read back.  When a call of [Search]
    succeeds with a next-page block, the page ends with a span, and reading
    the token as a decimal integer gives that span's duration when
    [getSort] answers "duration" and its start time otherwise. *)
Theorem Search_token_reads_back ctx r w resp w' m :
  Search ctx r w = (Some resp, None, w') →
  Metadata_ resp = Some m →
  ∃ sqr s,
    buildSearchQuery r = inr sqr
    ∧ last (elems (Spans resp)) = Some (Some s)
    ∧ parse_decimal (NextToken m) =
        Some (if bool_decide (search_getSort sqr = "duration")
              then DurationNano (ExternalFields_ s)
              else StartTimeUnixNano (Span_ s)).
Proof.
  intros Hs Hm. destruct (Search_ok _ _ _ _ _ Hs) as (sqr & rs & Hb & Hresp).
  injection Hresp as ->. unfold Search_page in *; simpl in *.
  rewrite Search_metadata_last in Hm.
  destruct (last (omap decoded_span (rows_all rs))) as [[s|]|]; [|done..].
  injection Hm as <-. exists sqr, s. split; [done|]. split; [done|].
  simpl. by rewrite parse_Sprintf_d.
Qed.

End ReaderPaths.

Lemma omap_length_le {A B} (f : A → option B) (l : list A) :
  (length (omap f l) ≤ length l)%nat.
Proof.
  induction l as [|x l IH]; [done|].
  change (omap f (x :: l)) with
    (match f x with Some y => y :: omap f l | None => omap f l end).
  destruct (f x); simpl; lia.
Qed.

Section TagPaths.
Context `{plugin : SqlitePlugin}.

Implicit Types (w : World) (rows : list RawRow) (ctx : context).

(** [GetAvailableTags], stage by stage. *)
Lemma GetAvailableTags_cases ctx r w :
  GetAvailableTags ctx r w =
    match PrepareContext ctx buildDynamicTagsQuery (db w) with
    | (inl err, d1) =>
        (None, Some (Errorf_v "failed to prepare query: " err),
         mkWorld (logs w) d1)
    | (inr stmt, d1) =>
        match QueryContext stmt ctx d1 with
        | (inl err, d2) =>
            (None, Some (Errorf_v "failed to query tags: " err),
             mkWorld (logs w) (stmt_Close stmt d2))
        | (inr rs, d2) =>
            let '(tag, tags) :=
              GetAvailableTags_static (mkTagInfo "" "") nil_slice in
            let '(tags', w1) :=
              GetAvailableTags_rows (rows_all rs) tag tags (mkWorld (logs w) d2) in
            (Some (mkGetAvailableTagsResponse tags'), None,
             mkWorld (logs w1) (stmt_Close stmt (rows_Close rs (db w1))))
        end
    end.
Proof.
  unfold GetAvailableTags, defer, sql, mbind, M_bind, mret, M_ret.
  destruct (GetAvailableTags_static (mkTagInfo "" "") nil_slice) as [tag tags].
  destruct (PrepareContext ctx buildDynamicTagsQuery (db w)) as [[err|stmt] d1];
    [done|]. simpl.
  destruct (QueryContext stmt ctx d1) as [[err|rs] d2]; [done|]. simpl.
  by destruct (GetAvailableTags_rows (rows_all rs) tag tags (mkWorld (logs w) d2)).
Qed.

(** [GetTagValues], stage by stage. *)
Lemma GetTagValues_stages ctx r tag w :
  GetTagValues ctx r tag w =
    match buildTagValuesQuery r tag with
    | inl err =>
        (None, Some err,
         mkWorld (logs w ++ [mkEntry ErrorLevel
                    ("failed to build tag values query for: " +:+ tag) err])
                 (db w))
    | inr q =>
        match PrepareContext ctx (tagValue_getQuery q) (db w) with
        | (inl err, d1) =>
            (None, Some err,
             mkWorld (logs w ++ [mkEntry ErrorLevel
                        ("failed to prepare query: " +:+ tagValue_getQuery q) err])
                     d1)
        | (inr stmt, d1) =>
            match QueryContext stmt ctx d1 with
            | (inl err, d2) =>
                (None, Some err,
                 mkWorld (logs w ++ [mkEntry ErrorLevel
                            ("failed to query tags values for: " +:+ tag) err])
                         (stmt_Close stmt d2))
            | (inr rs, d2) =>
                let '(vals, w1) :=
                  GetTagValues_rows (rows_all rs) nil_slice (mkWorld (logs w) d2) in
                (Some (mkTagValuesResponse vals), None,
                 mkWorld (logs w1) (stmt_Close stmt (rows_Close rs (db w1))))
            end
        end
    end.
Proof.
  unfold GetTagValues, defer, sql, mbind, M_bind, mret, M_ret, logger_Error.
  destruct (buildTagValuesQuery r tag) as [err|q]; [done|].
  destruct (PrepareContext ctx (tagValue_getQuery q) (db w)) as [[err|stmt] d1];
    [done|]. simpl.
  destruct (QueryContext stmt ctx d1) as [[err|rs] d2]; [done|]. simpl.
  by destruct (GetTagValues_rows (rows_all rs) nil_slice (mkWorld (logs w) d2)).
Qed.

(** X4: a call of [GetAvailableTags] that returns an error returns no
    response, not even the static registry, and writes nothing to the log.
    The error is the driver's message behind "failed to prepare query: "
    when the discovery statement cannot be prepared and behind "failed to
    query tags: " when it cannot be run, and then the statement has been
    closed. *)
Theorem GetAvailableTags_error ctx r w resp e w' :
  GetAvailableTags ctx r w = (resp, Some e, w') →
  resp = None
  ∧ logs w' = logs w
  ∧ ((∃ cause d1,
        PrepareContext ctx buildDynamicTagsQuery (db w) = (inl cause, d1)
        ∧ Error e = "failed to prepare query: " +:+ Error cause
        ∧ db w' = d1)
     ∨ (∃ stmt d1 cause d2,
          PrepareContext ctx buildDynamicTagsQuery (db w) = (inr stmt, d1)
          ∧ QueryContext stmt ctx d1 = (inl cause, d2)
          ∧ Error e = "failed to query tags: " +:+ Error cause
          ∧ db w' = stmt_Close stmt d2)).
Proof.
  rewrite GetAvailableTags_cases.
  destruct (PrepareContext ctx buildDynamicTagsQuery (db w)) as [[cause|stmt] d1] eqn:Hp.
  { intros [= <- <- <-]. split; [done|]. split; [done|].
    left. by exists cause, d1. }
  destruct (QueryContext stmt ctx d1) as [[cause|rs] d2] eqn:Hq.
  { intros [= <- <- <-]. split; [done|]. split; [done|].
    right. by exists stmt, d1, cause, d2. }
  destruct (GetAvailableTags_static (mkTagInfo "" "") nil_slice) as [tag tags].
  by destruct (GetAvailableTags_rows (rows_all rs) tag tags (mkWorld (logs w) d2)).
Qed.

(** X5: a call of [GetTagValues] that returns an error returns no
    response and adds exactly one record to the log, at error level and
    carrying the error it returns.  That error is the builder's or the
    driver's own, not wrapped; the record names the tag when the query
    cannot be built or run, and the query text when it cannot be
    prepared. *)
Theorem GetTagValues_error_logged ctx r tag w resp e w' :
  GetTagValues ctx r tag w = (resp, Some e, w') →
  resp = None
  ∧ ∃ msg,
      logs w' = logs w ++ [mkEntry ErrorLevel msg e]
      ∧ ((buildTagValuesQuery r tag = inl e
          ∧ msg = "failed to build tag values query for: " +:+ tag
          ∧ db w' = db w)
         ∨ (∃ q d1,
              buildTagValuesQuery r tag = inr q
              ∧ PrepareContext ctx (tagValue_getQuery q) (db w) = (inl e, d1)
              ∧ msg = "failed to prepare query: " +:+ tagValue_getQuery q
              ∧ db w' = d1)
         ∨ (∃ q stmt d1 d2,
              buildTagValuesQuery r tag = inr q
              ∧ PrepareContext ctx (tagValue_getQuery q) (db w) = (inr stmt, d1)
              ∧ QueryContext stmt ctx d1 = (inl e, d2)
              ∧ msg = "failed to query tags values for: " +:+ tag
              ∧ db w' = stmt_Close stmt d2)).
Proof.
  rewrite GetTagValues_stages.
  destruct (buildTagValuesQuery r tag) as [err|q] eqn:Hb.
  { intros [= <- <- <-]. split; [done|]. eexists. split; [done|]. by left. }
  destruct (PrepareContext ctx (tagValue_getQuery q) (db w)) as [[cause|stmt] d1] eqn:Hp.
  { intros [= <- <- <-]. split; [done|]. eexists. split; [done|].
    right; left. by exists q, d1. }
  destruct (QueryContext stmt ctx d1) as [[cause|rs] d2] eqn:Hq.
  { intros [= <- <- <-]. split; [done|]. eexists. split; [done|].
    right; right. by exists q, stmt, d1, d2. }
  by destruct (GetTagValues_rows (rows_all rs) nil_slice (mkWorld (logs w) d2)).
Qed.

Lemma GetAvailableTags_static_same tag tags :
  static_tags = [] → (GetAvailableTags_static tag tags).2 = tags.
Proof.
  unfold static_tags, GetAvailableTags_static.
  destruct (map_to_list staticTagTypeMap) as [|kv l]; [done|].
  intros Hnil. by apply fmap_nil_inv in Hnil.
Qed.

Lemma GetAvailableTags_rows_same rows : ∀ tag tags w,
  filter (λ t, getTableKey t ≠ "" ∧ getTagName t ≠ "") (scanned_tags rows) = [] →
  (GetAvailableTags_rows rows tag tags w).1 = tags.
Proof.
  induction rows as [|row rest IH]; intros tag tags w; [done|].
  simpl. unfold scanned_tags. simpl. fold (scanned_tags rest).
  destruct (scan_tag row) as [err|t] eqn:Hscan.
  - intros Hk. unfold mbind, M_bind, logger_Error. simpl. by apply IH.
  - destruct (decide (getTableKey t = "")) as [Hk|Hk].
    { rewrite (bool_decide_eq_true_2 _ Hk). simpl.
      rewrite filter_cons_False by (intros [? ?]; done). apply IH. }
    destruct (decide (getTagName t = "")) as [Hn|Hn].
    { rewrite (bool_decide_eq_true_2 _ Hn), orb_true_r.
      rewrite filter_cons_False by (intros [? ?]; done). apply IH. }
    by rewrite filter_cons_True by done.
Qed.

(** X6: a call of [GetAvailableTags] that succeeds with no tag to list
    returns the nil slice, not an allocated empty one, and that happens
    exactly when the static registry is empty and no discovered pair is
    kept. *)
Theorem GetAvailableTags_nil_iff_empty ctx r w resp w' :
  GetAvailableTags ctx r w = (Some resp, None, w') →
  ∃ stmt d1 rs d2,
    PrepareContext ctx buildDynamicTagsQuery (db w) = (inr stmt, d1)
    ∧ QueryContext stmt ctx d1 = (inr rs, d2)
    ∧ (Tags resp = nil_slice ↔ len (Tags resp) = 0%nat)
    ∧ (len (Tags resp) = 0%nat ↔
         staticTagTypeMap = ∅
         ∧ ∀ t, t ∈ scanned_tags (rows_all rs) →
             getTableKey t = "" ∨ getTagName t = "").
Proof.
  intros Hs.
  destruct (GetAvailableTags_ok _ _ _ _ _ Hs) as (stmt & d1 & rs & d2 & Hp & Hq & Hel).
  exists stmt, d1, rs, d2. split; [done|]. split; [done|].
  set (kept := filter (λ t, getTableKey t ≠ "" ∧ getTagName t ≠ "")
                 (scanned_tags (rows_all rs))) in *.
  assert (len (Tags resp) = 0%nat ↔ static_tags = [] ∧ kept = []) as Hlen.
  { rewrite len_zero_elems, Hel. split.
    - intros Happ. apply app_eq_nil in Happ as [? Hk].
      by apply fmap_nil_inv in Hk.
    - by intros [-> ->]. }
  split.
  - split; [by intros ->|]. intros Hz. apply Hlen in Hz as [Hst Hk].
    rewrite GetAvailableTags_cases, Hp, Hq in Hs.
    pose proof (GetAvailableTags_static_same (mkTagInfo "" "") nil_slice Hst) as Hsame.
    destruct (GetAvailableTags_static (mkTagInfo "" "") nil_slice) as [tag tags].
    simpl in Hsame. subst tags.
    pose proof (GetAvailableTags_rows_same (rows_all rs) tag nil_slice
                  (mkWorld (logs w) d2) Hk) as Hrows.
    destruct (GetAvailableTags_rows (rows_all rs) tag nil_slice (mkWorld (logs w) d2))
      as [tags' w1].
    simpl in Hrows. subst tags'. by injection Hs as <- _.
  - rewrite Hlen. split.
    + intros [Hst Hk]. split.
      * unfold static_tags in Hst. apply fmap_nil_inv in Hst.
        by apply map_to_list_empty_iff.
      * intros t Hin.
        destruct (decide (getTableKey t = "")) as [|Hkey]; [by left|].
        destruct (decide (getTagName t = "")) as [|Hname]; [by right|].
        assert (t ∈ kept) as Hkept by (by apply list_elem_of_filter).
        rewrite Hk in Hkept. by apply elem_of_nil in Hkept.
    + intros [Hmap Hall]. split.
      * unfold static_tags. by rewrite Hmap, map_to_list_empty.
      * apply elem_of_nil_inv. intros t Hin.
        apply list_elem_of_filter in Hin as [[Hk Hn] Hin].
        by destruct (Hall t Hin).
Qed.

(** X7: a call of [GetTagValues] that succeeds with no value returns the
    nil slice, not an allocated empty one, and that happens exactly when no
    row that [Scan] accepts has a value other than nil; the number of values
    is the number of such rows. *)
Theorem GetTagValues_nil_iff_empty ctx r tag w resp w' :
  GetTagValues ctx r tag w = (Some resp, None, w') →
  ∃ q stmt d1 rs d2,
    buildTagValuesQuery r tag = inr q
    ∧ PrepareContext ctx (tagValue_getQuery q) (db w) = (inr stmt, d1)
    ∧ QueryContext stmt ctx d1 = (inr rs, d2)
    ∧ len (Values resp) = length (scanned_values (rows_all rs))
    ∧ (Values resp = nil_slice ↔ len (Values resp) = 0%nat)
    ∧ (length (scanned_values (rows_all rs)) ≤ length (rows_all rs))%nat.
Proof.
  intros Hs.
  destruct (GetTagValues_cases ctx r tag w) as (new & dbw & _ & [[err He]|Hok]).
  { rewrite Hs in He. done. }
  destruct Hok as (resp0 & q & stmt & d1 & rs & d2 & _ & Hb & Hp & Hq).
  destruct (GetTagValues_run _ _ _ _ _ _ _ _ _ Hb Hp Hq) as (vals & new' & Hrun & Hel & Hnil).
  rewrite Hrun in Hs. injection Hs as <- _.
  exists q, stmt, d1, rs, d2. repeat (split; [done|]). simpl.
  assert (len vals = length (scanned_values (rows_all rs))) as Hlen
    by (unfold len; by rewrite Hel, length_fmap).
  split; [done|]. split.
  - split; [by intros ->|]. rewrite Hlen. intros Hz.
    apply Hnil. by apply length_zero_iff_nil.
  - unfold scanned_values. apply omap_length_le.
Qed.

End TagPaths.

(** ** What the methods do to the store and the log *)

Section ReaderEffects.
Context `{plugin : SqlitePlugin}.

Implicit Types (w : World) (rows : list RawRow) (ctx : context).

(** The three row loops append records at error level to the log, at most
    one per row, and leave the store alone. *)
Lemma Search_rows_effect rows spans w :
  ∃ new,
    (Search_rows rows spans w).2 = mkWorld (logs w ++ new) (db w)
    ∧ Forall (λ e, entry_level e = ErrorLevel) new.
Proof.
  destruct (Search_rows_spec rows spans w) as (s' & new & Hrun & _ & _ & _ & Hlvl).
  exists new. by rewrite Hrun.
Qed.

Lemma GetAvailableTags_rows_effect rows : ∀ tag tags w,
  ∃ new,
    (GetAvailableTags_rows rows tag tags w).2 = mkWorld (logs w ++ new) (db w)
    ∧ Forall (λ e, entry_level e = ErrorLevel) new.
Proof.
  induction rows as [|row rest IH]; intros tag tags w.
  - exists []. by rewrite world_eta.
  - simpl. destruct (scan_tag row) as [err|t].
    + unfold mbind, M_bind, logger_Error. simpl.
      match goal with |- context [GetAvailableTags_rows rest tag tags ?w2] =>
        destruct (IH tag tags w2) as (new & Hrun & Hlvl) end.
      simpl in *. eexists (_ :: new). rewrite Hrun, <- app_assoc. simpl.
      split; [done|]. by constructor.
    + destruct (_ || _); apply IH.
Qed.

Lemma GetTagValues_rows_effect rows : ∀ (cur : slice TagValueInfo) w,
  ∃ new,
    (GetTagValues_rows rows cur w).2 = mkWorld (logs w ++ new) (db w)
    ∧ Forall (λ e, entry_level e = ErrorLevel) new.
Proof.
  induction rows as [|row rest IH]; intros cur w.
  - exists []. by rewrite world_eta.
  - simpl. destruct (scan_value row) as [err|[[v|] c]].
    + unfold mbind, M_bind, logger_Error. simpl.
      match goal with |- context [GetTagValues_rows rest cur ?w2] =>
        destruct (IH cur w2) as (new & Hrun & Hlvl) end.
      simpl in *. eexists (_ :: new). rewrite Hrun, <- app_assoc. simpl.
      split; [done|]. by constructor.
    + apply IH.
    + apply IH.
Qed.

(** What the single-query methods leave behind: the log with records at
    error level appended, and a store that went through the same stages as
    the call. *)
Lemma Search_effect ctx r w :
  ∃ new, logs (Search ctx r w).2 = logs w ++ new
    ∧ Forall (λ e, entry_level e = ErrorLevel) new.
Proof.
  rewrite Search_cases.
  destruct (buildSearchQuery r) as [err|sqr];
    [exists []; by rewrite app_nil_r|].
  destruct (PrepareContext ctx (search_getQuery sqr) (db w)) as [[err|stmt] d1];
    [exists []; simpl; by rewrite app_nil_r|].
  destruct (QueryContext stmt ctx d1) as [[err|rs] d2];
    [exists []; simpl; by rewrite app_nil_r|].
  destruct (Search_rows_effect (rows_all rs) make0 (mkWorld (logs w) d2))
    as (new & Hrun & Hlvl).
  destruct (Search_rows (rows_all rs) make0 (mkWorld (logs w) d2)) as [spans w1].
  simpl in *. subst w1. by exists new.
Qed.

Lemma GetAvailableTags_effect ctx r w :
  ∃ new, logs (GetAvailableTags ctx r w).2 = logs w ++ new
    ∧ Forall (λ e, entry_level e = ErrorLevel) new.
Proof.
  rewrite GetAvailableTags_cases.
  destruct (PrepareContext ctx buildDynamicTagsQuery (db w)) as [[err|stmt] d1];
    [exists []; simpl; by rewrite app_nil_r|].
  destruct (QueryContext stmt ctx d1) as [[err|rs] d2];
    [exists []; simpl; by rewrite app_nil_r|].
  destruct (GetAvailableTags_static (mkTagInfo "" "") nil_slice) as [tag tags].
  destruct (GetAvailableTags_rows_effect (rows_all rs) tag tags (mkWorld (logs w) d2))
    as (new & Hrun & Hlvl).
  destruct (GetAvailableTags_rows (rows_all rs) tag tags (mkWorld (logs w) d2))
    as [tags' w1].
  simpl in *. subst w1. by exists new.
Qed.

Lemma GetTagValues_effect ctx r tag w :
  ∃ new, logs (GetTagValues ctx r tag w).2 = logs w ++ new
    ∧ Forall (λ e, entry_level e = ErrorLevel) new.
Proof.
  rewrite GetTagValues_stages.
  destruct (buildTagValuesQuery r tag) as [err|q];
    [eexists [_]; split; [done|by repeat constructor]|].
  destruct (PrepareContext ctx (tagValue_getQuery q) (db w)) as [[err|stmt] d1];
    [eexists [_]; split; [done|by repeat constructor]|].
  destruct (QueryContext stmt ctx d1) as [[err|rs] d2];
    [eexists [_]; split; [done|by repeat constructor]|].
  destruct (GetTagValues_rows_effect (rows_all rs) nil_slice (mkWorld (logs w) d2))
    as (new & Hrun & Hlvl).
  destruct (GetTagValues_rows (rows_all rs) nil_slice (mkWorld (logs w) d2))
    as [vals w1].
  simpl in *. subst w1. by exists new.
Qed.

Lemma GetTagsValues_tags_effect ctx r tags : ∀ result w,
  ∃ new, logs (GetTagsValues_tags ctx r tags result w).2 = logs w ++ new
    ∧ Forall (λ e, entry_level e = ErrorLevel) new.
Proof.
  induction tags as [|tag rest IH]; intros result w.
  - exists []. simpl. by rewrite app_nil_r.
  - simpl. unfold mbind, M_bind.
    destruct (GetTagValues_effect ctx r tag w) as (new1 & Hlog1 & Hlvl1).
    destruct (GetTagValues ctx r tag w) as [[resp [e|]] w1]; simpl in *.
    + unfold logger_Error. simpl.
      match goal with |- context [GetTagsValues_tags ctx r rest result ?w2] =>
        destruct (IH result w2) as (new2 & Hlog2 & Hlvl2) end.
      simpl in *. rewrite Hlog2, Hlog1, <- !app_assoc.
      eexists. split; [done|].
      apply Forall_app. split; [done|]. by constructor.
    + match goal with |- context [GetTagsValues_tags ctx r rest ?m w1] =>
        destruct (IH m w1) as (new2 & Hlog2 & Hlvl2) end.
      rewrite Hlog2, Hlog1, <- app_assoc.
      eexists. split; [done|]. by apply Forall_app.
Qed.

(** X8: no method of the reader rewrites or drops what is in the log: it
    only appends, and every record it appends is at error level. *)
Theorem reader_log_appends_errors ctx w :
  (∀ r, ∃ new, logs (Search ctx r w).2 = logs w ++ new
          ∧ Forall (λ e, entry_level e = ErrorLevel) new)
  ∧ (∀ r, ∃ new, logs (GetAvailableTags ctx r w).2 = logs w ++ new
            ∧ Forall (λ e, entry_level e = ErrorLevel) new)
  ∧ (∀ r tag, ∃ new, logs (GetTagValues ctx r tag w).2 = logs w ++ new
                ∧ Forall (λ e, entry_level e = ErrorLevel) new)
  ∧ (∀ r tags, ∃ new, logs (GetTagsValues ctx r tags w).2 = logs w ++ new
                 ∧ Forall (λ e, entry_level e = ErrorLevel) new).
Proof.
  split; [|split; [|split]].
  - intros r. apply Search_effect.
  - intros r. apply GetAvailableTags_effect.
  - intros r tag. apply GetTagValues_effect.
  - intros r tags. unfold GetTagsValues, mbind, M_bind, mret, M_ret.
    destruct (GetTagsValues_tags_effect ctx r tags ∅ w) as (new & Hlog & Hlvl).
    destruct (GetTagsValues_tags ctx r tags ∅ w) as [m w1]. by exists new.
Qed.

(** *** Statements and cursors are closed *)

Section Handles.
Variable open : DB → nat.
Hypothesis prepare_opens : ∀ ctx q d stmt d',
  PrepareContext ctx q d = (inr stmt, d') → open d' = S (open d).
Hypothesis prepare_fails : ∀ ctx q d err d',
  PrepareContext ctx q d = (inl err, d') → open d' = open d.
Hypothesis query_opens : ∀ stmt ctx d rs d',
  QueryContext stmt ctx d = (inr rs, d') → open d' = S (open d).
Hypothesis query_fails : ∀ stmt ctx d err d',
  QueryContext stmt ctx d = (inl err, d') → open d' = open d.
Hypothesis stmt_Close_closes : ∀ stmt d, open (stmt_Close stmt d) = pred (open d).
Hypothesis rows_Close_closes : ∀ rs d, open (rows_Close rs d) = pred (open d).

Lemma Search_handles ctx r w : open (db (Search ctx r w).2) = open (db w).
Proof.
  rewrite Search_cases.
  destruct (buildSearchQuery r) as [err|sqr]; [done|].
  destruct (PrepareContext ctx (search_getQuery sqr) (db w)) as [[err|stmt] d1] eqn:Hp;
    [by apply prepare_fails in Hp|].
  apply prepare_opens in Hp.
  destruct (QueryContext stmt ctx d1) as [[err|rs] d2] eqn:Hq.
  { apply query_fails in Hq. simpl. rewrite stmt_Close_closes. lia. }
  apply query_opens in Hq.
  destruct (Search_rows_effect (rows_all rs) make0 (mkWorld (logs w) d2))
    as (new & Hrun & _).
  destruct (Search_rows (rows_all rs) make0 (mkWorld (logs w) d2)) as [spans w1].
  simpl in *. subst w1. simpl.
  rewrite stmt_Close_closes, rows_Close_closes. lia.
Qed.

Lemma GetAvailableTags_handles ctx r w :
  open (db (GetAvailableTags ctx r w).2) = open (db w).
Proof.
  rewrite GetAvailableTags_cases.
  destruct (PrepareContext ctx buildDynamicTagsQuery (db w)) as [[err|stmt] d1] eqn:Hp;
    [by apply prepare_fails in Hp|].
  apply prepare_opens in Hp.
  destruct (QueryContext stmt ctx d1) as [[err|rs] d2] eqn:Hq.
  { apply query_fails in Hq. simpl. rewrite stmt_Close_closes. lia. }
  apply query_opens in Hq.
  destruct (GetAvailableTags_static (mkTagInfo "" "") nil_slice) as [tag tags].
  destruct (GetAvailableTags_rows_effect (rows_all rs) tag tags (mkWorld (logs w) d2))
    as (new & Hrun & _).
  destruct (GetAvailableTags_rows (rows_all rs) tag tags (mkWorld (logs w) d2))
    as [tags' w1].
  simpl in *. subst w1. simpl.
  rewrite stmt_Close_closes, rows_Close_closes. lia.
Qed.

Lemma GetTagValues_handles ctx r tag w :
  open (db (GetTagValues ctx r tag w).2) = open (db w).
Proof.
  rewrite GetTagValues_stages.
  destruct (buildTagValuesQuery r tag) as [err|q]; [done|].
  destruct (PrepareContext ctx (tagValue_getQuery q) (db w)) as [[err|stmt] d1] eqn:Hp;
    [by apply prepare_fails in Hp|].
  apply prepare_opens in Hp.
  destruct (QueryContext stmt ctx d1) as [[err|rs] d2] eqn:Hq.
  { apply query_fails in Hq. simpl. rewrite stmt_Close_closes. lia. }
  apply query_opens in Hq.
  destruct (GetTagValues_rows_effect (rows_all rs) nil_slice (mkWorld (logs w) d2))
    as (new & Hrun & _).
  destruct (GetTagValues_rows (rows_all rs) nil_slice (mkWorld (logs w) d2))
    as [vals w1].
  simpl in *. subst w1. simpl.
  rewrite stmt_Close_closes, rows_Close_closes. lia.
Qed.

Lemma GetTagsValues_tags_handles ctx r tags : ∀ result w,
  open (db (GetTagsValues_tags ctx r tags result w).2) = open (db w).
Proof.
  induction tags as [|tag rest IH]; intros result w; [done|].
  simpl. unfold mbind, M_bind.
  pose proof (GetTagValues_handles ctx r tag w) as Hone.
  destruct (GetTagValues ctx r tag w) as [[resp [e|]] w1]; simpl in *.
  - unfold logger_Error. simpl. by rewrite IH.
  - by rewrite IH.
Qed.

(** X9: on a driver that counts its open statements and cursors (a
    successful prepare or query opens one, a failed one opens none, a close
    closes one), every method of the reader returns with as many open as it
    found, whether it succeeds or fails and whatever the rows hold. *)
Theorem reader_closes_what_it_opens ctx w :
  (∀ r, open (db (Search ctx r w).2) = open (db w))
  ∧ (∀ r, open (db (GetAvailableTags ctx r w).2) = open (db w))
  ∧ (∀ r tag, open (db (GetTagValues ctx r tag w).2) = open (db w))
  ∧ (∀ r tags, open (db (GetTagsValues ctx r tags w).2) = open (db w)).
Proof.
  split; [|split; [|split]].
  - intros r. apply Search_handles.
  - intros r. apply GetAvailableTags_handles.
  - intros r tag. apply GetTagValues_handles.
  - intros r tags. unfold GetTagsValues, mbind, M_bind, mret, M_ret.
    pose proof (GetTagsValues_tags_handles ctx r tags ∅ w) as Hall.
    by destruct (GetTagsValues_tags ctx r tags ∅ w).
Qed.

End Handles.

End ReaderEffects.

(** ** Batches of lookups *)

Section Batches.
Context `{plugin : SqlitePlugin}.

Implicit Types (w : World) (ctx : context).

(** A loop started from a map gives what the loop started from the empty
    map gives, laid over that map. *)
Lemma GetTagsValues_tags_from ctx r tags : ∀ result w,
  GetTagsValues_tags ctx r tags result w =
    ((GetTagsValues_tags ctx r tags ∅ w).1 ∪ result,
     (GetTagsValues_tags ctx r tags ∅ w).2).
Proof.
  induction tags as [|tag rest IH]; intros result w.
  - simpl. unfold mret, M_ret. simpl. by rewrite (left_id_L ∅ (∪)).
  - simpl. unfold mbind, M_bind.
    destruct (GetTagValues ctx r tag w) as [[resp [e|]] w1]; simpl.
    + apply IH.
    + rewrite (IH (<[tag:=resp]> result)), (IH (<[tag:=resp]> ∅)). simpl.
      f_equal. rewrite <- (assoc_L (∪)). f_equal.
      by rewrite <- insert_union_l, (left_id_L ∅ (∪)).
Qed.

Lemma GetTagsValues_tags_app ctx r tags1 tags2 : ∀ result w,
  GetTagsValues_tags ctx r (tags1 ++ tags2) result w =
    GetTagsValues_tags ctx r tags2
      (GetTagsValues_tags ctx r tags1 result w).1
      (GetTagsValues_tags ctx r tags1 result w).2.
Proof.
  induction tags1 as [|tag rest IH]; intros result w; [done|].
  simpl. unfold mbind, M_bind.
  destruct (GetTagValues ctx r tag w) as [[resp [e|]] w1]; simpl; apply IH.
Qed.

(** X10: a batch over two lists of tags, one after the other, is the batch
    over the first list followed by the batch over the second in the world
    the first leaves: the result is the second map laid over the first,
    so that a tag of both lists has what the second batch found, and the
    world is the one the second batch leaves. *)
Theorem GetTagsValues_app ctx r tags1 tags2 w :
  let first := GetTagsValues ctx r tags1 w in
  let second := GetTagsValues ctx r tags2 first.2 in
  GetTagsValues ctx r (tags1 ++ tags2) w
    = (second.1.1 ∪ first.1.1, None, second.2).
Proof.
  unfold GetTagsValues, mbind, M_bind, mret, M_ret.
  rewrite GetTagsValues_tags_app.
  destruct (GetTagsValues_tags ctx r tags1 ∅ w) as [m1 w1]. simpl.
  rewrite GetTagsValues_tags_from.
  by destruct (GetTagsValues_tags ctx r tags2 ∅ w1) as [m2 w2].
Qed.

(** X11: the result of a batch has no key that was not asked for and binds
    no key to a nil response: every binding is a tag of the list with the
    response of a successful lookup of that tag.  A batch over no tag
    returns the empty map and leaves the world as it is. *)
Theorem GetTagsValues_keys_requested ctx r tags w :
  (∀ tag x, (GetTagsValues ctx r tags w).1.1 !! tag = Some x →
     tag ∈ tags
     ∧ (tag, (x, None)) ∈ lookups ctx r tags w
     ∧ ∃ resp, x = Some resp)
  ∧ (tags = [] → GetTagsValues ctx r tags w = (∅, None, w)).
Proof.
  split; [|by intros ->].
  intros tag x. rewrite GetTagsValues_lookup.
  pose proof (last_filter_key (successes (lookups ctx r tags w)) tag) as Hl.
  destruct (last _) as [[k v]|]; [|done].
  destruct Hl as [Hk Hin]. simpl in Hk. subst k.
  apply elem_of_successes in Hin. intros [= <-].
  split; [|split; [done|by eapply lookups_success]].
  rewrite <- (lookups_tags ctx r tags w).
  apply list_elem_of_fmap. by exists (tag, (v, None)).
Qed.

Lemma successes_app (l1 l2 : list (string * (ptr TagValuesResponse * option error))) :
  successes (l1 ++ l2) = successes l1 ++ successes l2.
Proof.
  unfold successes. apply omap_app.
Qed.

(** X12: when a tag is looked up more than once in a batch, the result
    binds it to what its last successful lookup returned, whatever the
    lookups before it returned and however the lookups after it failed. *)
Theorem GetTagsValues_last_success ctx r tags w before tag x after :
  lookups ctx r tags w = before ++ (tag, (x, None)) :: after →
  (∀ y, (tag, (y, None)) ∉ after) →
  (GetTagsValues ctx r tags w).1.1 !! tag = Some x.
Proof.
  intros Hl Hafter. rewrite GetTagsValues_lookup, Hl.
  rewrite successes_app.
  change (successes ((tag, (x, None)) :: after))
    with ((tag, x) :: successes after).
  rewrite filter_app, filter_cons_True by done.
  assert (filter (λ kv : string * ptr TagValuesResponse, kv.1 = tag)
            (successes after) = []) as ->.
  { apply elem_of_nil_inv. intros [k v] Hin.
    apply list_elem_of_filter in Hin as [Hk Hin]. simpl in Hk. subst k.
    apply elem_of_successes in Hin. by destruct (Hafter v). }
  by rewrite last_snoc.
Qed.

(** A lookup that fails leaves one record with its error. *)
Lemma GetTagValues_error_record ctx r tag w resp e w' :
  GetTagValues ctx r tag w = (resp, Some e, w') →
  ∃ msg, logs w' = logs w ++ [mkEntry ErrorLevel msg e].
Proof.
  rewrite GetTagValues_stages.
  destruct (buildTagValuesQuery r tag) as [err|q];
    [intros [= <- <- <-]; by eexists|].
  destruct (PrepareContext ctx (tagValue_getQuery q) (db w)) as [[cause|stmt] d1];
    [intros [= <- <- <-]; by eexists|].
  destruct (QueryContext stmt ctx d1) as [[cause|rs] d2];
    [intros [= <- <- <-]; by eexists|].
  by destruct (GetTagValues_rows (rows_all rs) nil_slice (mkWorld (logs w) d2)).
Qed.

Lemma GetTagsValues_tags_logs_twice ctx r tag x e tags : ∀ result w,
  (tag, (x, Some e)) ∈ lookups ctx r tags w →
  ∃ msg pre post,
    logs (GetTagsValues_tags ctx r tags result w).2 =
      pre ++ [mkEntry ErrorLevel msg e;
              mkEntry ErrorLevel "failed to get tag value" e] ++ post.
Proof.
  induction tags as [|t rest IH]; intros result w Hin; simpl in Hin.
  - by apply elem_of_nil in Hin.
  - simpl. unfold mbind, M_bind.
    pose proof (GetTagValues_error_record ctx r t w) as Herr.
    destruct (GetTagValues ctx r t w) as [[resp err] w1]. simpl in Hin.
    apply elem_of_cons in Hin as [Heq|Hin].
    + injection Heq as <- <- <-.
      destruct (Herr _ _ _ eq_refl) as (msg & Hlog).
      unfold logger_Error. simpl.
      match goal with |- context [GetTagsValues_tags ctx r rest result ?w2] =>
        destruct (GetTagsValues_tags_spec ctx r rest result w2)
          as (new & dbw & Hrun & _) end.
      rewrite Hrun. simpl. rewrite Hlog.
      exists msg, (logs w), new. by rewrite <- !app_assoc.
    + destruct err as [err|]; simpl in *; by eapply IH.
Qed.

(** X13: a lookup that fails in a batch is reported twice: the log the
    batch leaves holds, next to each other, the record that [GetTagValues]
    wrote for the failure and the record "failed to get tag value" of the
    batch, both at error level and with the error of the lookup. *)
Theorem GetTagsValues_failure_logged_twice ctx r tags w tag x e :
  (tag, (x, Some e)) ∈ lookups ctx r tags w →
  ∃ msg pre post,
    logs (GetTagsValues ctx r tags w).2 =
      pre ++ [mkEntry ErrorLevel msg e;
              mkEntry ErrorLevel "failed to get tag value" e] ++ post.
Proof.
  intros Hin.
  destruct (GetTagsValues_tags_logs_twice ctx r tag x e tags ∅ w Hin)
    as (msg & pre & post & Hlog).
  exists msg, pre, post. unfold GetTagsValues, mbind, M_bind, mret, M_ret.
  by destruct (GetTagsValues_tags ctx r tags ∅ w).
Qed.

End Batches.

(** ** The label of a filter chip *)

Section FilterChipFacts.
Import FilterChip.
Context {scalar : Type} (ToString : scalar → list N).

Lemma formatStrValue_length (s : list N) (n : nat) :
  length (formatStrValue s n) =
    if bool_decide (MAX_FILTER_LENGTH < n)%nat
    then (length s `min` 100 + 5)%nat
    else (length s + 2)%nat.
Proof.
  unfold formatStrValue, quote, MAX_FILTER_LENGTH.
  case_bool_decide; rewrite !length_app; simpl.
  - rewrite length_take. lia.
  - lia.
Qed.

(** X14: the chip shows a string value between double quotes, cut to its
    first hundred code units, with three dots after it exactly when the key,
    the operator and the value together are longer than a hundred; what it
    shows of the value is never longer than 105 code units. *)
Theorem formatFilterValue_string (k op s : list N) :
  let filter := mkKeyValueFilter k op (VString s) in
  formatFilterValue ToString filter (VString s) =
    inl (quote ++ take 100 s
           ++ (if bool_decide (100 < length k + length op + length s)%nat
               then lit "..." else [])
           ++ quote)
  ∧ ∃ out, formatFilterValue ToString filter (VString s) = inl out
      ∧ (length out ≤ 105)%nat.
Proof.
  simpl. unfold getFilterLength. simpl. split.
  - unfold formatStrValue, MAX_FILTER_LENGTH.
    case_bool_decide; [by rewrite <- app_assoc|].
    by rewrite take_ge by lia.
  - eexists. split; [reflexivity|].
    rewrite formatStrValue_length. unfold MAX_FILTER_LENGTH.
    case_bool_decide; lia.
Qed.

(** X15: the three dots do not mean that the value was cut: when the value
    is at most a hundred code units long but the key and the operator bring
    the filter over a hundred, the chip shows the whole value followed by
    three dots. *)
Theorem formatFilterValue_dots_without_cut (k op s : list N) :
  (length s ≤ 100)%nat →
  (100 < length k + length op + length s)%nat →
  formatFilterValue ToString (mkKeyValueFilter k op (VString s)) (VString s)
    = inl (quote ++ s ++ lit "..." ++ quote).
Proof.
  intros Hs Hall. simpl. unfold getFilterLength, formatStrValue, MAX_FILTER_LENGTH.
  simpl. rewrite bool_decide_eq_true_2 by done.
  rewrite take_ge by done. by rewrite <- app_assoc.
Qed.

(** X16: of an array of two or more entries the chip shows the first entry
    and how many follow, and nothing else.  The label is an opening bracket,
    the first entry (between double quotes when it is a string), three dots,
    a plus sign, the number of the entries after the first in decimal, and a
    closing bracket.  The entries after the first and the length of the
    filter do not matter, and the first entry is not cut, so the label is at
    least as long as that entry. *)
Theorem formatArrayValue_first_and_count (e : element scalar)
    (rest1 rest2 : list (element scalar)) (n1 n2 : nat) :
  rest1 ≠ [] →
  length rest1 = length rest2 →
  (∀ s, e = EString s →
     formatArrayValue ToString (e :: rest1) n1
       = inl (lit "[" ++ quote ++ s ++ quote ++ lit "...+"
                ++ lit (Sprintf_d (Z.of_nat (length rest1))) ++ lit "]"))
  ∧ (∀ x, e = EScalar x →
       formatArrayValue ToString (e :: rest1) n1
         = inl (lit "[" ++ ToString x ++ lit "...+"
                  ++ lit (Sprintf_d (Z.of_nat (length rest1))) ++ lit "]"))
  ∧ formatArrayValue ToString (e :: rest1) n1
      = formatArrayValue ToString (e :: rest2) n2
  ∧ ∃ out, formatArrayValue ToString (e :: rest1) n1 = inl out
      ∧ (length (element_ToString scalar ToString e) + 6 ≤ length out)%nat.
Proof.
  intros Hne Hlen.
  assert (1 < S (length rest1))%nat as Hone by (destruct rest1; [done|simpl; lia]).
  split; [|split].
  - intros s ->. unfold formatArrayValue. simpl.
    by rewrite (bool_decide_eq_true_2 _ Hone), Nat.sub_0_r.
  - intros x ->. unfold formatArrayValue. simpl.
    by rewrite (bool_decide_eq_true_2 _ Hone), Nat.sub_0_r.
  - unfold formatArrayValue. simpl. rewrite <- Hlen.
    destruct e as [s|x]; rewrite (bool_decide_eq_true_2 _ Hone).
    + split; [done|]. eexists. split; [reflexivity|].
      repeat (simpl; rewrite length_app). simpl. lia.
    + split; [done|]. eexists. split; [reflexivity|].
      repeat (simpl; rewrite length_app). simpl. lia.
Qed.

(** The length that decides on the three dots counts an array as a
    template literal prints it: its entries with a comma between each
    two. *)
Lemma getFilterLength_array (k op : list N) (l : list (list N)) :
  l ≠ [] →
  getFilterLength ToString (mkKeyValueFilter k op (VArray (EString <$> l)))
    = (length k + length op + (length (concat l) + (length l - 1)))%nat.
Proof.
  intros Hne. unfold getFilterLength. simpl. f_equal.
  induction l as [|s l IH]; [done|].
  destruct l as [|s' l]; [simpl; rewrite app_nil_r; lia|].
  change (join_comma ToString (EString <$> s :: s' :: l))
    with (s ++ lit "," ++ join_comma ToString (EString <$> s' :: l)).
  rewrite !length_app, IH by done. simpl. rewrite !length_app. lia.
Qed.

(** An array that holds one string is shown as that string alone would
    be, quotes, cut and dots included, and an array that holds nothing is
    shown as the empty string. *)
Lemma formatFilterValue_small_arrays (k op s : list N) :
  formatFilterValue ToString
      (mkKeyValueFilter k op (VArray [EString s])) (VArray [EString s])
    = formatFilterValue ToString
        (mkKeyValueFilter k op (VString s)) (VString s)
  ∧ formatFilterValue ToString (mkKeyValueFilter k op (VArray [])) (VArray [])
    = inl [].
Proof. by split. Qed.

End FilterChipFacts.

(** ** What the tag methods log *)

Section TagLogs.
Context `{plugin : SqlitePlugin}.

Implicit Types (w : World) (rows : list RawRow) (ctx : context).

Lemma GetTagValues_rows_log rows : ∀ (cur : slice TagValueInfo) w,
  (GetTagValues_rows rows cur w).2 =
    mkWorld (logs w ++ (mkEntry ErrorLevel "failed to get tag value"
                          <$> scan_errors scan_value rows))
            (db w).
Proof.
  induction rows as [|row rest IH]; intros cur w.
  - simpl. by rewrite world_eta.
  - simpl. unfold scan_errors. simpl. fold (scan_errors scan_value rest).
    destruct (scan_value row) as [err|[[v|] c]].
    + unfold mbind, M_bind, logger_Error. simpl.
      rewrite IH. simpl. by rewrite <- app_assoc.
    + apply IH.
    + apply IH.
Qed.

Lemma GetAvailableTags_rows_log rows : ∀ tag tags w,
  (GetAvailableTags_rows rows tag tags w).2 =
    mkWorld (logs w ++ (mkEntry ErrorLevel "failed to get tag value"
                          <$> scan_errors scan_tag rows))
            (db w).
Proof.
  induction rows as [|row rest IH]; intros tag tags w.
  - simpl. by rewrite world_eta.
  - simpl. unfold scan_errors. simpl. fold (scan_errors scan_tag rest).
    destruct (scan_tag row) as [err|t].
    + unfold mbind, M_bind, logger_Error. simpl.
      rewrite IH. simpl. by rewrite <- app_assoc.
    + destruct (_ || _); apply IH.
Qed.

(** X17: a call of [GetTagValues] that succeeds logs the rows that [Scan]
    rejects and nothing else: one record "failed to get tag value" per such
    row, with its error and in the order of the rows.  A row whose value is
    nil is dropped without a record, so the values and the records together
    can be fewer than the rows. *)
Theorem GetTagValues_logs_scan_errors ctx r tag w resp w' :
  GetTagValues ctx r tag w = (Some resp, None, w') →
  ∃ q stmt d1 rs d2,
    buildTagValuesQuery r tag = inr q
    ∧ PrepareContext ctx (tagValue_getQuery q) (db w) = (inr stmt, d1)
    ∧ QueryContext stmt ctx d1 = (inr rs, d2)
    ∧ logs w' = logs w ++ (mkEntry ErrorLevel "failed to get tag value"
                             <$> scan_errors scan_value (rows_all rs))
    ∧ (len (Values resp) + length (scan_errors scan_value (rows_all rs))
       ≤ length (rows_all rs))%nat.
Proof.
  intros Hs.
  destruct (GetTagValues_cases ctx r tag w) as (new & dbw & _ & [[err He]|Hok]).
  { rewrite Hs in He. done. }
  destruct Hok as (resp0 & q & stmt & d1 & rs & d2 & _ & Hb & Hp & Hq).
  exists q, stmt, d1, rs, d2. repeat (split; [done|]).
  destruct (GetTagValues_run _ _ _ _ _ _ _ _ _ Hb Hp Hq) as (vals & new' & Hrun & Hel & _).
  rewrite GetTagValues_stages, Hb, Hp, Hq in Hs.
  pose proof (GetTagValues_rows_log (rows_all rs) nil_slice (mkWorld (logs w) d2)) as Hlog.
  rewrite GetTagValues_stages, Hb, Hp, Hq in Hrun.
  destruct (GetTagValues_rows (rows_all rs) nil_slice (mkWorld (logs w) d2))
    as [vals' w1].
  simpl in Hlog. subst w1. injection Hs as <- <-. injection Hrun as -> _.
  split; [done|]. unfold len. simpl. rewrite Hel, length_fmap.
  unfold scanned_values, scan_errors.
  generalize (rows_all rs). intros rows.
  induction rows as [|row rest IH]; [done|].
  unfold omap in *. simpl in *.
  destruct (scan_value row) as [err|[[v|] c]]; simpl in *; lia.
Qed.

(** X18: a call of [GetAvailableTags] that succeeds logs the rows that
    [Scan] rejects and nothing else: one record per such row, with its
    error, in the order of the rows, under the message "failed to get tag
    value".  A pair with an empty part is dropped without a record. *)
Theorem GetAvailableTags_logs_scan_errors ctx r w resp w' :
  GetAvailableTags ctx r w = (Some resp, None, w') →
  ∃ stmt d1 rs d2,
    PrepareContext ctx buildDynamicTagsQuery (db w) = (inr stmt, d1)
    ∧ QueryContext stmt ctx d1 = (inr rs, d2)
    ∧ logs w' = logs w ++ (mkEntry ErrorLevel "failed to get tag value"
                             <$> scan_errors scan_tag (rows_all rs))
    ∧ (length (scanned_tags (rows_all rs))
       + length (scan_errors scan_tag (rows_all rs))
       = length (rows_all rs))%nat.
Proof.
  intros Hs.
  destruct (GetAvailableTags_ok _ _ _ _ _ Hs) as (stmt & d1 & rs & d2 & Hp & Hq & _).
  exists stmt, d1, rs, d2. repeat (split; [done|]).
  rewrite GetAvailableTags_cases, Hp, Hq in Hs.
  destruct (GetAvailableTags_static (mkTagInfo "" "") nil_slice) as [tag tags].
  pose proof (GetAvailableTags_rows_log (rows_all rs) tag tags (mkWorld (logs w) d2))
    as Hlog.
  destruct (GetAvailableTags_rows (rows_all rs) tag tags (mkWorld (logs w) d2))
    as [tags' w1].
  simpl in Hlog. subst w1. injection Hs as _ <-.
  split; [done|].
  unfold scanned_tags, scan_errors.
  generalize (rows_all rs). intros rows.
  induction rows as [|row rest IH]; [done|].
  unfold omap in *. simpl in *.
  destruct (scan_tag row) as [err|t]; simpl in *; lia.
Qed.

End TagLogs.

(** ** The properties on the store in memory *)

Import Scenario.

Lemma Search_continuation_token_witness :
  ∃ resp w', Search background request world = (Some resp, None, w')
    ∧ ∃ sqr, buildSearchQuery request = inr sqr
      ∧ (∀ s, last (elems (Spans resp)) = Some (Some s) →
           (search_getSort sqr = "duration" →
              Metadata_ resp
                = Some (mkMetadata (Sprintf_d (DurationNano (ExternalFields_ s)))))
           ∧ (search_getSort sqr ≠ "duration" →
              Metadata_ resp
                = Some (mkMetadata (Sprintf_d (StartTimeUnixNano (Span_ s))))))
      ∧ (len (Spans resp) = 0%nat → Metadata_ resp = None)
      ∧ ((∀ q p, toInternalSpan q = (p, None) → p ≠ None) →
           (0 < len (Spans resp))%nat →
           ∃ s, last (elems (Spans resp)) = Some (Some s)).
Proof.
  eexists _, _. split; [vm_compute; reflexivity|].
  eapply (Search_continuation_token background request world). reflexivity.
Defined.

(** The first scenario of the specification: the spans that start at 100
    and at 50 come back in that order with the token "50". *)
Example Search_scenario_start_time :
  ∃ s1 s2 w',
    Search background request world
      = (Some (mkSearchResponse (slice_of [Some s1; Some s2])
                 (Some (mkMetadata "50"))), None, w')
    ∧ StartTimeUnixNano (Span_ s1) = 100 ∧ StartTimeUnixNano (Span_ s2) = 50.
Proof. eexists _, _, _. split; [vm_compute; reflexivity|done]. Qed.

(** C2 fails as stated: the store holds two spans for the query, both
    decode, the page size asked for is ten, and the page of two carries a
    cursor. *)
Lemma Search_short_page_has_cursor :
  ∃ resp w',
    Search background request_by_duration world = (Some resp, None, w')
    ∧ PageSize request_by_duration = 10%nat
    ∧ len (Spans resp) = 2%nat
    ∧ (len (Spans resp) < PageSize request_by_duration)%nat
    ∧ Metadata_ resp = Some (mkMetadata "30").
Proof.
  eexists _, _. split; [vm_compute; reflexivity|].
  repeat split. vm_compute. lia.
Qed.

Lemma Search_cursor_absent_iff_witness :
  ∃ resp w', Search background request world = (Some resp, None, w')
    ∧ (Metadata_ resp = None ↔ ∀ s, last (elems (Spans resp)) ≠ Some (Some s))
    ∧ ((∀ q p, toInternalSpan q = (p, None) → p ≠ None) →
         (Metadata_ resp = None ↔ len (Spans resp) = 0%nat)).
Proof.
  eexists _, _. split; [vm_compute; reflexivity|].
  eapply (Search_cursor_absent_iff background request world). reflexivity.
Defined.

Lemma Search_spans_allocated_witness :
  ∃ resp w', Search background request world = (resp, None, w')
    ∧ ∃ page, resp = Some page
      ∧ is_nil (Spans page) = false
      ∧ (len (Spans page) = 0%nat → Spans page = make0).
Proof.
  eexists _, _. split; [vm_compute; reflexivity|].
  eapply (Search_spans_allocated background request world). reflexivity.
Defined.

Lemma Search_skips_undecodable_rows_witness :
  ∃ sqr stmt d1 rs d2,
    buildSearchQuery request = inr sqr
    ∧ PrepareContext background (search_getQuery sqr) (db world) = (inr stmt, d1)
    ∧ QueryContext stmt background d1 = (inr rs, d2)
    ∧ ∃ resp w' new,
        Search background request world = (Some resp, None, w')
        ∧ Spans resp = slice_of (omap decoded_span (rows_all rs))
        ∧ logs w' = logs world ++ new
        ∧ entry_err <$> new = omap decode_failure (rows_all rs)
        ∧ Forall (λ e, entry_level e = ErrorLevel) new
        ∧ (∀ row, decoded_span row = None ↔ is_Some (decode_failure row)).
Proof.
  eexists _, _, _, _, _.
  split; [vm_compute; reflexivity|].
  split; [vm_compute; reflexivity|].
  split; [vm_compute; reflexivity|].
  eapply (Search_skips_undecodable_rows background request world);
    reflexivity.
Defined.

Lemma GetAvailableTags_static_and_discovered_witness :
  ∃ resp w', GetAvailableTags background tags_request world = (Some resp, None, w')
    ∧ ∃ stmt d1 rs d2,
      PrepareContext background buildDynamicTagsQuery (db world) = (inr stmt, d1)
      ∧ QueryContext stmt background d1 = (inr rs, d2)
      ∧ (∀ name ty, staticTagTypeMap !! name = Some ty →
           mkTagInfo name ty ∈ elems (Tags resp))
      ∧ (∀ t, t ∈ scanned_tags (rows_all rs) →
           getTableKey t ≠ "" → getTagName t ≠ "" →
           mkTagInfo (getTableKey t +:+ "." +:+ getTagName t) (getTagType t)
             ∈ elems (Tags resp))
      ∧ (∃ discovered,
           elems (Tags resp) = static_tags ++ discovered
           ∧ discovered =
               (λ t, mkTagInfo (getTableKey t +:+ "." +:+ getTagName t) (getTagType t))
                 <$> filter (λ t, getTableKey t ≠ "" ∧ getTagName t ≠ "")
                       (scanned_tags (rows_all rs))
           ∧ length static_tags = size staticTagTypeMap).
Proof.
  eexists _, _. split; [vm_compute; reflexivity|].
  eapply (GetAvailableTags_static_and_discovered background tags_request world).
  vm_compute; reflexivity.
Defined.

(** The third scenario of the specification: the registry holds
    [http.method], discovery finds [resource.service.name], and both are
    listed; the pair with a NULL source is not. *)
Example GetAvailableTags_scenario :
  ∃ resp w', GetAvailableTags background tags_request world = (Some resp, None, w')
    ∧ mkTagInfo "http.method" "string" ∈ elems (Tags resp)
    ∧ mkTagInfo "resource.service.name" "string" ∈ elems (Tags resp)
    ∧ mkTagInfo ".orphan" "string" ∉ elems (Tags resp).
Proof.
  eexists _, _. split; [vm_compute; reflexivity|]. simpl.
  split; [|split]; [repeat constructor..|].
  intros Hin. repeat (apply elem_of_cons in Hin as [Hin|Hin]; [discriminate Hin|]).
  by apply elem_of_nil in Hin.
Qed.

(** C6 fails as stated: discovery reports [span.attributes.retries] under
    two types, and the list names it twice. *)
Lemma GetAvailableTags_repeats_a_name :
  ∃ resp w', GetAvailableTags background tags_request world = (Some resp, None, w')
    ∧ tag_Name <$> elems (Tags resp)
        = ["http.method"; "resource.service.name";
           "span.attributes.retries"; "span.attributes.retries"]
    ∧ ¬ NoDup (tag_Name <$> elems (Tags resp)).
Proof.
  eexists _, _. split; [vm_compute; reflexivity|]. simpl. split; [done|].
  intros Hnd. do 2 apply NoDup_cons in Hnd as [_ Hnd].
  apply NoDup_cons in Hnd as [Hin _]. apply Hin. constructor.
Qed.

Lemma GetAvailableTags_names_distinct_iff_witness :
  ∃ resp w', GetAvailableTags background tags_request world = (Some resp, None, w')
    ∧ ∃ stmt d1 rs d2,
      PrepareContext background buildDynamicTagsQuery (db world) = (inr stmt, d1)
      ∧ QueryContext stmt background d1 = (inr rs, d2)
      ∧ NoDup (tag_Name <$> static_tags)
      ∧ (NoDup (tag_Name <$> elems (Tags resp)) ↔
           NoDup (tag_Name <$> (qualified <$>
                    filter (λ t, getTableKey t ≠ "" ∧ getTagName t ≠ "")
                      (scanned_tags (rows_all rs))))
           ∧ ∀ t, t ∈ scanned_tags (rows_all rs) →
               getTableKey t ≠ "" → getTagName t ≠ "" →
               staticTagTypeMap !! (getTableKey t +:+ "." +:+ getTagName t) = None).
Proof.
  eexists _, _. split; [vm_compute; reflexivity|].
  eapply (GetAvailableTags_names_distinct_iff background tags_request world).
  vm_compute; reflexivity.
Defined.

Lemma GetTagValues_no_nil_value_witness :
  ∃ resp w',
    GetTagValues background values_request "http.method" world
      = (Some resp, None, w')
    ∧ ∃ q stmt d1 rs d2,
      buildTagValuesQuery values_request "http.method" = inr q
      ∧ PrepareContext background (tagValue_getQuery q) (db world) = (inr stmt, d1)
      ∧ QueryContext stmt background d1 = (inr rs, d2)
      ∧ elems (Values resp) =
          (λ vc, mkTagValueInfo (Some vc.1) vc.2) <$> scanned_values (rows_all rs)
      ∧ Forall (λ e, tv_Value e ≠ None) (elems (Values resp)).
Proof.
  eexists _, _. split; [vm_compute; reflexivity|].
  eapply (GetTagValues_no_nil_value background values_request "http.method" world).
  vm_compute; reflexivity.
Defined.

(** The fourth scenario of the specification: of the rows (GET, 12),
    (POST, 3) and (NULL, 5) the first two are returned. *)
Example GetTagValues_scenario :
  ∃ w',
    GetTagValues background values_request "http.method" world
      = (Some (mkTagValuesResponse
                 (slice_of [mkTagValueInfo (Some (VText "GET")) 12;
                            mkTagValueInfo (Some (VText "POST")) 3])),
         None, w').
Proof. eexists. vm_compute; reflexivity. Qed.

(** The fifth scenario of the specification: of the tags [a] and [b], the
    lookup of [b] fails and the result has the key [a] only. *)
Example GetTagsValues_scenario :
  ∃ result w',
    GetTagsValues background values_request ["a"; "b"] world
      = (result, None, w')
    ∧ dom result = {["a"]}
    ∧ mkEntry ErrorLevel "failed to get tag value"
        (errorString "no such table: values of b") ∈ logs w'.
Proof.
  eexists _, _. split; [vm_compute; reflexivity|]. split.
  - by vm_compute.
  - simpl. repeat constructor.
Qed.

Lemma GetTagValues_no_values_witness :
  ∃ q stmt d1 rs d2,
    buildTagValuesQuery values_request "quiet" = inr q
    ∧ PrepareContext background (tagValue_getQuery q) (db world) = (inr stmt, d1)
    ∧ QueryContext stmt background d1 = (inr rs, d2)
    ∧ (∀ row, row ∈ rows_all rs →
         (∃ err, scan_value row = inl err) ∨ (∃ c, scan_value row = inr (None, c)))
    ∧ (∃ resp w1,
         GetTagValues background values_request "quiet" world = (Some resp, None, w1)
         ∧ Values resp = nil_slice
         ∧ len (Values resp) = 0%nat
         ∧ ∃ result w2,
             GetTagsValues background values_request ["quiet"] world
               = (result, None, w2)
             ∧ result !! "quiet" = Some (Some resp))
    ∧ (∀ tags w0 x,
         ("quiet", (x, None)) ∈ lookups background values_request tags w0 →
         (∀ y, ("quiet", (Some y, None)) ∈ lookups background values_request tags w0 →
            len (Values y) = 0%nat) →
         ∃ resp,
           (GetTagsValues background values_request tags w0).1.1 !! "quiet"
             = Some (Some resp)
           ∧ len (Values resp) = 0%nat).
Proof.
  eexists _, _, _, _, _.
  split; [vm_compute; reflexivity|].
  split; [vm_compute; reflexivity|].
  split; [vm_compute; reflexivity|].
  assert (∀ row : RawRow, row ∈ [[None; Some (VInt 4)]; [Some (VText "y")]] →
            (∃ err, scan_value row = inl err)
            ∨ (∃ c, scan_value row = inr (None, c))) as Hrows.
  { intros row Hin. apply elem_of_cons in Hin as [->|Hin]; [right; by eexists|].
    apply elem_of_cons in Hin as [->|Hin]; [left; by eexists|].
    by apply elem_of_nil in Hin. }
  split; [exact Hrows|].
  eapply (GetTagValues_no_values background values_request "quiet" world);
    [reflexivity..|exact Hrows].
Defined.

Lemma reader_closes_what_it_opens_witness :
  (∀ r, open_handles (db (Search background r world).2) = open_handles (db world))
  ∧ (∀ r, open_handles (db (GetAvailableTags background r world).2)
          = open_handles (db world))
  ∧ (∀ r tag, open_handles (db (GetTagValues background r tag world).2)
              = open_handles (db world))
  ∧ (∀ r tags, open_handles (db (GetTagsValues background r tags world).2)
               = open_handles (db world)).
Proof.
  apply (@reader_closes_what_it_opens driver plugin open_handles).
  - intros ctx q d stmt d'. simpl. case_bool_decide; [done|]. by intros [= _ <-].
  - intros ctx q d err d'. simpl. case_bool_decide; [|done]. by intros [= _ <-].
  - intros stmt ctx d rs d'. simpl. destruct (find_table stmt d); [|done].
    by intros [= _ <-].
  - intros stmt ctx d err d'. simpl. destruct (find_table stmt d); [done|].
    by intros [= _ <-].
  - done.
  - done.
Defined.

Lemma GetTagsValues_last_success_witness :
  ∃ first second err,
    first ≠ second
    ∧ @lookups Scripted.driver Scripted.plugin tt tt ["a"; "a"; "a"]
        Scripted.changing_values
      = [("a", (Some first, None))]
          ++ ("a", (Some second, None)) :: [("a", (None, Some err))]
    ∧ (∀ y, ("a", (y, None))
              ∉ [("a", (@None (@TagValuesResponse Scripted.driver), Some err))])
    ∧ (@GetTagsValues Scripted.driver Scripted.plugin tt tt ["a"; "a"; "a"]
         Scripted.changing_values).1.1 !! "a"
        = Some (Some second).
Proof.
  exists
    (@mkTagValuesResponse Scripted.driver
       (slice_of [@mkTagValueInfo Scripted.driver (Some (Scenario.VText "GET")) 12])),
    (@mkTagValuesResponse Scripted.driver
       (slice_of [@mkTagValueInfo Scripted.driver (Some (Scenario.VText "POST")) 3])),
    (errorString "context deadline exceeded").
  split; [discriminate|]. split; [vm_compute; reflexivity|].
  match goal with |- ?P ∧ _ => assert P as Hafter end.
  { intros y Hin. apply elem_of_cons in Hin as [Heq|Hin]; [done|].
    by apply elem_of_nil in Hin. }
  split; [exact Hafter|].
  apply (@GetTagsValues_last_success Scripted.driver Scripted.plugin
           tt tt ["a"; "a"; "a"] Scripted.changing_values
           [("a", (Some (@mkTagValuesResponse Scripted.driver
       (slice_of [@mkTagValueInfo Scripted.driver (Some (Scenario.VText "GET")) 12])), None))]
           "a"
           (Some (@mkTagValuesResponse Scripted.driver
       (slice_of [@mkTagValueInfo Scripted.driver (Some (Scenario.VText "POST")) 3])))
           [("a", (None, Some (errorString "context deadline exceeded")))]);
    [vm_compute; reflexivity|exact Hafter].
Defined.

Lemma GetTagsValues_failure_logged_twice_witness :
  ∃ x e,
    ("b", (x, Some e)) ∈ lookups background values_request ["a"; "b"] world
    ∧ ∃ msg pre post,
        logs (GetTagsValues background values_request ["a"; "b"] world).2 =
          pre ++ [mkEntry ErrorLevel msg e;
                  mkEntry ErrorLevel "failed to get tag value" e] ++ post.
Proof.
  eexists _, _.
  assert (("b", (None, Some (errorString "no such table: values of b")))
            ∈ lookups background values_request ["a"; "b"] world) as Hin.
  { vm_compute. apply list_elem_of_further, list_elem_of_here. }
  split; [exact Hin|].
  exact (GetTagsValues_failure_logged_twice background values_request
           ["a"; "b"] world "b" _ _ Hin).
Defined.

Import ScenarioMore.

Lemma Search_error_witness :
  ∃ resp e w',
    Search background request_without_filters world = (resp, Some e, w')
    ∧ resp = None
    ∧ logs w' = logs world
    ∧ ((buildSearchQuery request_without_filters = inl e ∧ w' = world)
       ∨ (∃ sqr cause d1,
            buildSearchQuery request_without_filters = inr sqr
            ∧ PrepareContext background (search_getQuery sqr) (db world)
                = (inl cause, d1)
            ∧ Error e = "failed to prepare query: " +:+ Error cause
            ∧ db w' = d1)
       ∨ (∃ sqr stmt d1 cause d2,
            buildSearchQuery request_without_filters = inr sqr
            ∧ PrepareContext background (search_getQuery sqr) (db world)
                = (inr stmt, d1)
            ∧ QueryContext stmt background d1 = (inl cause, d2)
            ∧ Error e = "failed to query spans: " +:+ Error cause
            ∧ db w' = stmt_Close stmt d2)).
Proof.
  eexists _, _, _. split; [vm_compute; reflexivity|].
  eapply (Search_error background request_without_filters world).
  vm_compute; reflexivity.
Defined.

(** A search over a store that has nothing filed for the query fails with
    the driver's message behind the prefix of the stage. *)
Example Search_error_scenario :
  ∃ w', Search background request empty_world
          = (None,
             Some (errorString
               "failed to query spans: no such table: spans by span.startTimeUnixNano"),
             w')
        ∧ logs w' = [] ∧ open_handles (db w') = 0%nat.
Proof. eexists. split; [vm_compute; reflexivity|done]. Qed.

Lemma Search_accounts_for_rows_witness :
  ∃ resp w',
    Search background request world = (Some resp, None, w')
    ∧ ∃ sqr stmt d1 rs d2 new,
        buildSearchQuery request = inr sqr
        ∧ PrepareContext background (search_getQuery sqr) (db world) = (inr stmt, d1)
        ∧ QueryContext stmt background d1 = (inr rs, d2)
        ∧ logs w' = logs world ++ new
        ∧ (len (Spans resp) + length new = length (rows_all rs))%nat.
Proof.
  eexists _, _. split; [vm_compute; reflexivity|].
  eapply (Search_accounts_for_rows background request world).
  vm_compute; reflexivity.
Defined.

Lemma Search_token_reads_back_witness :
  ∃ resp w' m,
    Search background request_by_duration world = (Some resp, None, w')
    ∧ Metadata_ resp = Some m
    ∧ ∃ sqr s,
        buildSearchQuery request_by_duration = inr sqr
        ∧ last (elems (Spans resp)) = Some (Some s)
        ∧ parse_decimal (NextToken m) =
            Some (if bool_decide (search_getSort sqr = "duration")
                  then DurationNano (ExternalFields_ s)
                  else StartTimeUnixNano (Span_ s)).
Proof.
  eexists _, _, _. split; [vm_compute; reflexivity|].
  split; [reflexivity|].
  eapply (Search_token_reads_back background request_by_duration world);
    [vm_compute; reflexivity|reflexivity].
Defined.

Lemma GetAvailableTags_error_witness :
  ∃ resp e w',
    GetAvailableTags background tags_request empty_world = (resp, Some e, w')
    ∧ resp = None
    ∧ logs w' = logs empty_world
    ∧ ((∃ cause d1,
          PrepareContext background buildDynamicTagsQuery (db empty_world)
            = (inl cause, d1)
          ∧ Error e = "failed to prepare query: " +:+ Error cause
          ∧ db w' = d1)
       ∨ (∃ stmt d1 cause d2,
            PrepareContext background buildDynamicTagsQuery (db empty_world)
              = (inr stmt, d1)
            ∧ QueryContext stmt background d1 = (inl cause, d2)
            ∧ Error e = "failed to query tags: " +:+ Error cause
            ∧ db w' = stmt_Close stmt d2)).
Proof.
  eexists _, _, _. split; [vm_compute; reflexivity|].
  eapply (GetAvailableTags_error background tags_request empty_world).
  vm_compute; reflexivity.
Defined.

Lemma GetTagValues_error_logged_witness :
  ∃ resp e w',
    GetTagValues background values_request "b" world = (resp, Some e, w')
    ∧ resp = None
    ∧ ∃ msg,
        logs w' = logs world ++ [mkEntry ErrorLevel msg e]
        ∧ ((buildTagValuesQuery values_request "b" = inl e
            ∧ msg = "failed to build tag values query for: " +:+ "b"
            ∧ db w' = db world)
           ∨ (∃ q d1,
                buildTagValuesQuery values_request "b" = inr q
                ∧ PrepareContext background (tagValue_getQuery q) (db world)
                    = (inl e, d1)
                ∧ msg = "failed to prepare query: " +:+ tagValue_getQuery q
                ∧ db w' = d1)
           ∨ (∃ q stmt d1 d2,
                buildTagValuesQuery values_request "b" = inr q
                ∧ PrepareContext background (tagValue_getQuery q) (db world)
                    = (inr stmt, d1)
                ∧ QueryContext stmt background d1 = (inl e, d2)
                ∧ msg = "failed to query tags values for: " +:+ "b"
                ∧ db w' = stmt_Close stmt d2)).
Proof.
  eexists _, _, _. split; [vm_compute; reflexivity|].
  eapply (GetTagValues_error_logged background values_request "b" world).
  vm_compute; reflexivity.
Defined.

Lemma GetAvailableTags_nil_iff_empty_witness :
  ∃ resp w',
    @GetAvailableTags Scripted.driver Scripted.plugin tt tt Scripted.nothing_to_list
      = (Some resp, None, w')
    ∧ Tags resp = nil_slice
    ∧ @staticTagTypeMap Scripted.driver Scripted.plugin = ∅
    ∧ ∃ stmt d1 rs d2,
        @PrepareContext Scripted.driver tt
            (@buildDynamicTagsQuery Scripted.driver Scripted.plugin)
            (db Scripted.nothing_to_list) = (inr stmt, d1)
        ∧ @QueryContext Scripted.driver stmt tt d1 = (inr rs, d2)
        ∧ (Tags resp = nil_slice ↔ len (Tags resp) = 0%nat)
        ∧ (len (Tags resp) = 0%nat ↔
             @staticTagTypeMap Scripted.driver Scripted.plugin = ∅
             ∧ ∀ t, t ∈ @scanned_tags Scripted.driver Scripted.plugin
                          (@rows_all Scripted.driver rs) →
                 @getTableKey Scripted.driver Scripted.plugin t = ""
                 ∨ @getTagName Scripted.driver Scripted.plugin t = "").
Proof.
  eexists _, _. split; [vm_compute; reflexivity|].
  split; [reflexivity|]. split; [reflexivity|].
  eapply (@GetAvailableTags_nil_iff_empty Scripted.driver Scripted.plugin
            tt tt Scripted.nothing_to_list).
  vm_compute; reflexivity.
Defined.

Lemma GetTagValues_nil_iff_empty_witness :
  ∃ resp w',
    GetTagValues background values_request "quiet" world = (Some resp, None, w')
    ∧ ∃ q stmt d1 rs d2,
        buildTagValuesQuery values_request "quiet" = inr q
        ∧ PrepareContext background (tagValue_getQuery q) (db world) = (inr stmt, d1)
        ∧ QueryContext stmt background d1 = (inr rs, d2)
        ∧ len (Values resp) = length (scanned_values (rows_all rs))
        ∧ (Values resp = nil_slice ↔ len (Values resp) = 0%nat)
        ∧ (length (scanned_values (rows_all rs)) ≤ length (rows_all rs))%nat.
Proof.
  eexists _, _. split; [vm_compute; reflexivity|].
  eapply (GetTagValues_nil_iff_empty background values_request "quiet" world).
  vm_compute; reflexivity.
Defined.

Lemma formatFilterValue_dots_without_cut_witness :
  (length (FilterChip.lit "GET") ≤ 100)%nat
  ∧ (100 < length (replicate 99 107%N) + length (FilterChip.lit "in")
           + length (FilterChip.lit "GET"))%nat
  ∧ FilterChip.formatFilterValue FilterChip.integer_ToString
      (FilterChip.mkKeyValueFilter (replicate 99 107%N) (FilterChip.lit "in")
         (FilterChip.VString (FilterChip.lit "GET")))
      (FilterChip.VString (FilterChip.lit "GET"))
    = inl (FilterChip.quote ++ FilterChip.lit "GET" ++ FilterChip.lit "..."
             ++ FilterChip.quote).
Proof.
  split; [vm_compute; lia|]. split; [vm_compute; lia|].
  apply (formatFilterValue_dots_without_cut FilterChip.integer_ToString);
    vm_compute; lia.
Defined.

Lemma formatArrayValue_first_and_count_witness :
  ([FilterChip.EString (FilterChip.lit "POST");
    FilterChip.EString (FilterChip.lit "PUT")] : list (FilterChip.element Z)) ≠ []
  ∧ length ([FilterChip.EString (FilterChip.lit "POST");
             FilterChip.EString (FilterChip.lit "PUT")]
              : list (FilterChip.element Z))
      = length [FilterChip.EScalar 7; FilterChip.EScalar 8]
  ∧ FilterChip.formatArrayValue FilterChip.integer_ToString
      [FilterChip.EString (FilterChip.lit "GET");
       FilterChip.EString (FilterChip.lit "POST");
       FilterChip.EString (FilterChip.lit "PUT")] 12
    = inl (FilterChip.lit "[" ++ FilterChip.quote ++ FilterChip.lit "GET"
             ++ FilterChip.quote ++ FilterChip.lit "...+2]")
  ∧ (∀ s, @FilterChip.EString Z (FilterChip.lit "GET") = FilterChip.EString s →
       FilterChip.formatArrayValue FilterChip.integer_ToString
         [FilterChip.EString (FilterChip.lit "GET");
          FilterChip.EString (FilterChip.lit "POST");
          FilterChip.EString (FilterChip.lit "PUT")] 12
       = inl (FilterChip.lit "[" ++ FilterChip.quote ++ s ++ FilterChip.quote
                ++ FilterChip.lit "...+"
                ++ FilterChip.lit (Sprintf_d (Z.of_nat 2)) ++ FilterChip.lit "]"))
  ∧ (∀ x, @FilterChip.EString Z (FilterChip.lit "GET") = FilterChip.EScalar x →
       FilterChip.formatArrayValue FilterChip.integer_ToString
         [FilterChip.EString (FilterChip.lit "GET");
          FilterChip.EString (FilterChip.lit "POST");
          FilterChip.EString (FilterChip.lit "PUT")] 12
       = inl (FilterChip.lit "[" ++ FilterChip.integer_ToString x
                ++ FilterChip.lit "...+"
                ++ FilterChip.lit (Sprintf_d (Z.of_nat 2)) ++ FilterChip.lit "]"))
  ∧ FilterChip.formatArrayValue FilterChip.integer_ToString
      [FilterChip.EString (FilterChip.lit "GET");
       FilterChip.EString (FilterChip.lit "POST");
       FilterChip.EString (FilterChip.lit "PUT")] 12
    = FilterChip.formatArrayValue FilterChip.integer_ToString
        [FilterChip.EString (FilterChip.lit "GET");
         FilterChip.EScalar 7; FilterChip.EScalar 8] 500
  ∧ ∃ out,
      FilterChip.formatArrayValue FilterChip.integer_ToString
        [FilterChip.EString (FilterChip.lit "GET");
         FilterChip.EString (FilterChip.lit "POST");
         FilterChip.EString (FilterChip.lit "PUT")] 12 = inl out
      ∧ (length (FilterChip.element_ToString Z FilterChip.integer_ToString
                   (FilterChip.EString (FilterChip.lit "GET"))) + 6
         ≤ length out)%nat.
Proof.
  split; [done|]. split; [reflexivity|]. split; [by vm_compute|].
  apply (formatArrayValue_first_and_count FilterChip.integer_ToString
           (FilterChip.EString (FilterChip.lit "GET"))
           [FilterChip.EString (FilterChip.lit "POST");
            FilterChip.EString (FilterChip.lit "PUT")]
           [FilterChip.EScalar 7; FilterChip.EScalar 8] 12 500);
    [done|reflexivity].
Defined.

(** An array of three methods on a chip: the first one and the count of
    the other two. *)
Example formatArrayValue_scenario :
  FilterChip.formatArrayValue FilterChip.integer_ToString
    [FilterChip.EString (FilterChip.lit "GET");
     FilterChip.EString (FilterChip.lit "POST");
     FilterChip.EString (FilterChip.lit "PUT")] 20
  = inl (FilterChip.lit "[" ++ FilterChip.quote ++ FilterChip.lit "GET"
           ++ FilterChip.quote ++ FilterChip.lit "...+2]").
Proof. by vm_compute. Qed.

Lemma GetTagValues_logs_scan_errors_witness :
  ∃ resp w',
    GetTagValues background values_request "quiet" world = (Some resp, None, w')
    ∧ ∃ q stmt d1 rs d2,
        buildTagValuesQuery values_request "quiet" = inr q
        ∧ PrepareContext background (tagValue_getQuery q) (db world) = (inr stmt, d1)
        ∧ QueryContext stmt background d1 = (inr rs, d2)
        ∧ logs w' = logs world ++ (mkEntry ErrorLevel "failed to get tag value"
                                     <$> scan_errors scan_value (rows_all rs))
        ∧ (len (Values resp) + length (scan_errors scan_value (rows_all rs))
           ≤ length (rows_all rs))%nat.
Proof.
  eexists _, _. split; [vm_compute; reflexivity|].
  eapply (GetTagValues_logs_scan_errors background values_request "quiet" world).
  vm_compute; reflexivity.
Defined.

Lemma GetAvailableTags_logs_scan_errors_witness :
  ∃ resp w',
    GetAvailableTags background tags_request discovery_world
      = (Some resp, None, w')
    ∧ logs w' = [mkEntry ErrorLevel "failed to get tag value"
                   (errorString "sql: Scan error")]
    ∧ ∃ stmt d1 rs d2,
        PrepareContext background buildDynamicTagsQuery (db discovery_world)
          = (inr stmt, d1)
        ∧ QueryContext stmt background d1 = (inr rs, d2)
        ∧ logs w' = logs discovery_world
                      ++ (mkEntry ErrorLevel "failed to get tag value"
                            <$> scan_errors scan_tag (rows_all rs))
        ∧ (length (scanned_tags (rows_all rs))
           + length (scan_errors scan_tag (rows_all rs))
           = length (rows_all rs))%nat.
Proof.
  eexists _, _. split; [vm_compute; reflexivity|].
  split; [reflexivity|].
  eapply (GetAvailableTags_logs_scan_errors background tags_request discovery_world).
  vm_compute; reflexivity.
Defined.
